(** * go-rss-agg: a shallow embedding of [main.go] and its properties

    The program reads a list of feed URLs, fetches every feed, merges the
    items, sorts them by creation time (most recent first), keeps the first
    [Count] of them and writes the result as one RSS document.

    Go strings are byte strings and are embedded as [string] (a list of
    8-bit [ascii]); Go [int] is embedded as [Z] (the program only compares
    it, so no wrap-around arises); [time.Time] is embedded as the instant it
    denotes, a [Z]; [error] values are embedded by their message. *)

From Stdlib Require Import ZArith Ascii Sorting.Sorted.
From Stdlib Require String.
From stdpp Require Import gmap strings list sorting.

(** ** The [strings] package *)

Module strings.

(** [strings.HasPrefix s prefix]. *)
Definition HasPrefix (s prefix : string) : bool := String.prefix prefix s.

(** [strings.Contains s substr]: [substr] occurs at some offset of [s]. *)
Fixpoint Contains (s substr : string) : bool :=
  HasPrefix s substr ||
  match s with
  | EmptyString => false
  | String _ t => Contains t substr
  end.

(** The UTF-8 encodings of the runes with Unicode's White_Space property,
    the runes [unicode.IsSpace] accepts. The decoder of package [utf8]
    accepts shortest-form encodings only, so a rune is a space exactly
    when its bytes are one of these sequences. *)
Definition White_Space : list (list nat) :=
  [ [9]; [10]; [11]; [12]; [13]; [32];          (* U+0009..U+000D, U+0020 *)
    [194; 133]; [194; 160];                     (* U+0085, U+00A0 *)
    [225; 154; 128];                            (* U+1680 *)
    [226; 128; 128]; [226; 128; 129]; [226; 128; 130]; [226; 128; 131];
    [226; 128; 132]; [226; 128; 133]; [226; 128; 134]; [226; 128; 135];
    [226; 128; 136]; [226; 128; 137]; [226; 128; 138]; (* U+2000..U+200A *)
    [226; 128; 168]; [226; 128; 169];           (* U+2028, U+2029 *)
    [226; 128; 175];                            (* U+202F *)
    [226; 129; 159];                            (* U+205F *)
    [227; 128; 128] ].                          (* U+3000 *)

Definition space_runes : list (list ascii) :=
  map (map ascii_of_nat) White_Space.

(** [strip p l] is the rest of [l] after its prefix [p], when [p] is one. *)
Fixpoint strip (p l : list ascii) : option (list ascii) :=
  match p, l with
  | [], _ => Some l
  | _ :: _, [] => None
  | a :: p', b :: l' => if Ascii.eqb a b then strip p' l' else None
  end.

(** The bytes after the space rune that [l] starts with, if it does. *)
Fixpoint strip_any (runes : list (list ascii)) (l : list ascii)
  : option (list ascii) :=
  match runes with
  | [] => None
  | p :: ps =>
      match strip p l with
      | Some l' => Some l'
      | None => strip_any ps l
      end
  end.

(** Drop leading runes of the table; [n] bounds the number of runes. *)
Fixpoint trim_front (runes : list (list ascii)) (n : nat) (l : list ascii)
  : list ascii :=
  match n with
  | O => l
  | S n' =>
      match strip_any runes l with
      | Some l' => trim_front runes n' l'
      | None => l
      end
  end.

Definition TrimLeft_bytes (l : list ascii) : list ascii :=
  trim_front space_runes (length l) l.

(** Trailing runes are found from the end of the string: the same scan on
    the reversed bytes against the reversed encodings. *)
Definition TrimRight_bytes (l : list ascii) : list ascii :=
  reverse (trim_front (map reverse space_runes) (length l) (reverse l)).

(** [strings.TrimSpace s]: [s] without leading and trailing white space. *)
Definition TrimSpace (s : string) : string :=
  String.string_of_list_ascii
    (TrimRight_bytes (TrimLeft_bytes (String.list_ascii_of_string s))).

End strings.

(** ** Configuration *)

Record Config := {
  InputFile : string;
  Count : Z;
  Mode : string;        (* "single" or "all" *)
  SingleURL : string;
  OutputFile : string
}.

(** [validateConfig]: [None] is Go's [nil] error, [Some msg] an error whose
    message is [msg]. *)
Definition validateConfig (config : Config) : option string :=
  if negb (String.eqb (Mode config) "single") && negb (String.eqb (Mode config) "all")
  then Some "mode must be 'single' or 'all'"
  else
    let missing :=
      if String.eqb (Mode config) "single"
      then
        if String.eqb (SingleURL config) EmptyString
        then Some "single-url must be provided when mode is 'single'"
        else None
      else
        if String.eqb (InputFile config) EmptyString
        then Some "input file must be provided when mode is 'all'"
        else None in
    match missing with
    | Some err => Some err
    | None =>
        if (Count config <=? 0)%Z
        then Some "count must be greater than 0"
        else None
    end.

(** The field that the selected mode requires is given. *)
Definition mode_field_given (config : Config) : Prop :=
  (Mode config = "single" ∧ SingleURL config ≠ EmptyString) ∨
  (Mode config = "all" ∧ InputFile config ≠ EmptyString).

(** ** Results of calls

    A Go call returning [(T, error)] yields [Ok v] for [(v, nil)] and
    [Err msg] for a non-nil error with message [msg]. *)
Inductive result (A : Type) : Type :=
  | Ok (v : A)
  | Err (msg : string).
Arguments Ok {A} v.
Arguments Err {A} msg.

(** A call either returns or ends in a run-time panic. *)
Inductive run (A : Type) : Type :=
  | Returns (r : A)
  | Panics (msg : string).
Arguments Returns {A} r.
Arguments Panics {A} msg.

(** ** The [time] package: a [time.Time] is the instant it denotes. *)
Module time.
Definition Time : Type := Z.
(** [t.After(u)]: the instant [t] is after [u]. *)
Definition After (t u : Time) : bool := (u <? t)%Z.
End time.

(** ** [github.com/SlyMarbo/rss]: the parsed feed

    The fields of an entry that [main.go] reads, and [DateValid], which it
    does not read. *)
Module rss.
Record Item := {
  Title : string;
  Summary : string;
  Content : string;
  Link : string;
  Date : time.Time;
  DateValid : bool      (* whether [Date] was parsed from the entry *)
}.
Record Feed := { Items : list Item }.
End rss.

(** ** [github.com/gorilla/feeds]: the fields that [main.go] sets *)
Module feeds.
Module Link.
Record t := { Href : string }.
End Link.
Module Item.
Record t := {
  Title : string;
  Link : Link.t;
  Description : string;
  Created : time.Time;
  Content : string
}.
End Item.
Module Feed.
Record t := {
  Title : string;
  Link : Link.t;
  Description : string;
  Created : time.Time;
  Items : list Item.t
}.
End Feed.
End feeds.

(** ** The world outside the program

    Everything a run depends on besides the configuration and the files:
    what the network answers, in which order the goroutines finish, the
    clock, the failures of the operating system, and the serializer. *)
Record Env := {
  (** [rss.Fetch url] as called by the [n]-th fetch of the run *)
  rss_Fetch : nat -> string -> result rss.Feed;
  (** the scheduler's decisions: which of the goroutines still running is
      the next to finish *)
  schedule : list nat;
  (** [time.Now()] *)
  time_Now : time.Time;
  (** [feed.ToRss()] *)
  ToRss : feeds.Feed.t -> result string;
  (** an existing file that [os.Open] cannot open, with the error *)
  open_fault : string -> option string;
  (** the error, other than [io.EOF], that ends the reading of a file *)
  read_fault : string -> option string;
  (** a path that [os.Create] cannot create, with the error *)
  create_fault : string -> option string;
  (** a write that fails after some bytes, with the error *)
  write_fault : string -> string -> option (nat * string)
}.

(** ** The [os] package over a file system mapping paths to contents *)
Module os.
Record File := { Name : string }.

Definition Open (env : Env) (name : string) (fs : gmap string string)
  : result File :=
  match open_fault env name with
  | Some err => Err err
  | None =>
      match fs !! name with
      | Some _ => Ok {| Name := name |}
      | None => Err ("open " +:+ name +:+ ": no such file or directory")
      end
  end.

(** [os.Create name]: creates the file, or truncates it when it exists. *)
Definition Create (env : Env) (name : string) (fs : gmap string string)
  : gmap string string * result File :=
  match create_fault env name with
  | Some err => (fs, Err err)
  | None => (<[name := EmptyString]> fs, Ok {| Name := name |})
  end.

Definition substring_to (n : nat) (s : string) : string := String.substring 0 n s.

(** [file.WriteString s] on a file just created: the bytes written are
    appended to its contents; the count of bytes is not modelled, the
    program drops it. *)
Definition WriteString (env : Env) (file : File) (s : string)
    (fs : gmap string string) : gmap string string * option string :=
  let old := default EmptyString (fs !! Name file) in
  match write_fault env (Name file) s with
  | Some (n, err) => (<[Name file := old +:+ substring_to n s]> fs, Some err)
  | None => (<[Name file := old +:+ s]> fs, None)
  end.
End os.

(** ** The [bufio] package: a [Scanner] with the default split function *)
Module bufio.
Definition MaxScanTokenSize : Z := 64 * 1024.
Definition ErrTooLong : string := "bufio.Scanner: token too long".

Definition newline : ascii := ascii_of_nat 10.
Definition carriage_return : ascii := ascii_of_nat 13.

(** The lines of [data]: each ends at a newline, the last one at the end
    of the data when it is not empty. *)
Fixpoint split_lines (data : string) : list string :=
  match data with
  | EmptyString => []
  | String c rest =>
      if Ascii.eqb c newline then EmptyString :: split_lines rest
      else
        match split_lines rest with
        | [] => [String c EmptyString]
        | line :: lines => String c line :: lines
        end
  end.

(** [dropCR]: drop a terminal carriage return. *)
Fixpoint dropCR (data : string) : string :=
  match data with
  | EmptyString => EmptyString
  | String c rest =>
      match rest with
      | EmptyString => if Ascii.eqb c carriage_return then EmptyString else data
      | String _ _ => String c (dropCR rest)
      end
  end.

(** The tokens that successive calls of [Scan] deliver with the split
    function [ScanLines], and the error that stops them: a line that fills
    the buffer of [MaxScanTokenSize] bytes without its newline stops the scan
    with [ErrTooLong]. *)
Fixpoint tokens (lines : list string) : list string * option string :=
  match lines with
  | [] => ([], None)
  | line :: rest =>
      if (MaxScanTokenSize <=? Z.of_nat (String.length line))%Z
      then ([], Some ErrTooLong)
      else let '(texts, err) := tokens rest in (dropCR line :: texts, err)
  end.

(** A scanner run to its end over a file: the texts of the successful
    [Scan] calls and the final [scanner.Err()]. *)
Definition Scanner (env : Env) (file : os.File) (fs : gmap string string)
  : list string * option string :=
  let data := default EmptyString (fs !! os.Name file) in
  let '(texts, err) := tokens (split_lines data) in
  (texts, match err with
          | Some e => Some e
          | None => read_fault env (os.Name file)
          end).
End bufio.

(** ** [readURLsFromFile] *)

(** The body of the scanning loop: the line is kept when it is not empty
    and is no comment after trimming. *)
Definition readURLs_step (urls : list string) (text : string) : list string :=
  let line := strings.TrimSpace text in
  if negb (String.eqb line EmptyString) && negb (strings.HasPrefix line "#")
  then urls ++ [line]
  else urls.

Definition readURLsFromFile (env : Env) (fs : gmap string string)
    (filename : string) : result (list string) :=
  match os.Open env filename fs with
  | Err err => Err ("error opening file: " +:+ err)
  | Ok file =>
      let '(texts, scan_err) := bufio.Scanner env file fs in
      let urls := foldl readURLs_step [] texts in
      match scan_err with
      | Some err => Err ("error reading file: " +:+ err)
      | None => Ok urls
      end
  end.

(** ** [fetchFeedItems] *)

(** The body of the loop over the parsed entries. *)
Definition fetchFeedItems_step (items : list feeds.Item.t) (item : rss.Item)
  : list feeds.Item.t :=
  let feedItem :=
    {| feeds.Item.Title := rss.Title item;
       feeds.Item.Link := {| feeds.Link.Href := rss.Link item |};
       feeds.Item.Description := rss.Summary item;
       feeds.Item.Created := rss.Date item;
       feeds.Item.Content := EmptyString     (* the zero value of the field *)
    |} in
  let feedItem :=
    if negb (String.eqb (rss.Content item) EmptyString)
    then {| feeds.Item.Title := feeds.Item.Title feedItem;
            feeds.Item.Link := feeds.Item.Link feedItem;
            feeds.Item.Description := feeds.Item.Description feedItem;
            feeds.Item.Created := feeds.Item.Created feedItem;
            feeds.Item.Content := rss.Content item |}
    else feedItem in
  items ++ [feedItem].

(** [fetchFeedItems url], called as the [n]-th fetch of the run. *)
Definition fetchFeedItems (env : Env) (n : nat) (url : string)
  : result (list feeds.Item.t) :=
  match rss_Fetch env n url with
  | Err err => Err err
  | Ok feed => Ok (foldl fetchFeedItems_step [] (rss.Items feed))
  end.

(** ** The [sort] package

    [sort.Slice] sorts in place with an algorithm that the package does not
    fix and that is not stable. Its contract is all the program relies on:
    the result is a rearrangement of the slice and, for a [less] that is a
    strict weak ordering, no element is less than one that precedes it. *)
Module sort.
Record StrictWeakOrdering {A : Type} (less : A -> A -> bool) : Prop := {
  less_irrefl : forall x, less x x = false;
  less_trans : forall x y z, less x y = true -> less y z = true -> less x z = true;
  less_incomparable_trans : forall x y z,
    less x y = false -> less y x = false ->
    less y z = false -> less z y = false ->
    less x z = false /\ less z x = false
}.

(** [y] may follow [x] in a sorted slice. *)
Definition follows {A : Type} (less : A -> A -> bool) (x y : A) : Prop :=
  less y x = false.

Class Sorter := {
  Slice : forall {A : Type}, (A -> A -> bool) -> list A -> list A;
  Slice_Permutation : forall (A : Type) (less : A -> A -> bool) (x : list A),
    Slice less x ≡ₚ x;
  Slice_Sorted : forall (A : Type) (less : A -> A -> bool) (x : list A),
    StrictWeakOrdering less -> Sorted (follows less) (Slice less x)
}.

(** The insertion sort of the package, which [sort.Slice] runs on slices
    of at most 12 elements: each element in turn moves left past the
    neighbours it is less than. [sorted] is the sorted part so far, nearest
    neighbour first. *)
Fixpoint insert_left {A : Type} (less : A -> A -> bool) (x : A)
    (sorted : list A) : list A :=
  match sorted with
  | [] => [x]
  | y :: rest =>
      if less x y then y :: insert_left less x rest else x :: y :: rest
  end.

Definition insertionSort {A : Type} (less : A -> A -> bool) (data : list A)
  : list A :=
  reverse (foldl (fun sorted x => insert_left less x sorted) [] data).
End sort.

(** ** Goroutines

    Each goroutine of [aggregateFeeds] changes the shared state in one
    step, under the mutex or inside the logger, after its fetch. A run of
    the fan-out is therefore fixed by the order in which the goroutines take
    that step. The scheduler decides it: each decision [c] picks, among the
    goroutines still running, the one at position [c] (modulo their number);
    when the decisions run out the others finish in launch order. *)
Fixpoint completion_order {A : Type} (decisions : list nat) (running : list A)
  : list A :=
  match decisions with
  | [] => running
  | c :: decisions' =>
      let k := c mod length running in
      match running !! k with
      | Some g => g :: completion_order decisions' (delete k running)
      | None => []
      end
  end.

(** The text of the warning that a failed fetch logs. *)
Definition warning (url err : string) : string :=
  "Warning: failed to fetch feed " +:+ url +:+ ": " +:+ err.

Section Program.
Context `{!sort.Sorter}.

(** The shared state of the fan-out: [allItems] and the log output. *)
Definition fan_state : Type := list feeds.Item.t * list string.

(** The goroutine launched for the [n]-th URL, from its fetch to its
    return: a warning, or the append under the mutex. *)
Definition goroutine (env : Env) (st : fan_state) (g : nat * string)
  : fan_state :=
  let '(n, url) := g in
  let '(allItems, log) := st in
  match fetchFeedItems env n (strings.TrimSpace url) with
  | Err err => (allItems, log ++ [warning url err])
  | Ok items => (allItems ++ items, log)
  end.

(** The fan-out over the URLs, up to [wg.Wait()]. *)
Definition fan_out (env : Env) (urls : list string) : fan_state :=
  foldl (goroutine env) ([], [])
        (completion_order (schedule env) (imap (fun n url => (n, url)) urls)).

(** The first part of [aggregateFeeds], up to the sort: the value of
    [allItems], or the error returned, and the log output. *)
Definition fetch_all (env : Env) (fs : gmap string string) (config : Config)
  : result (list feeds.Item.t) * list string :=
  if String.eqb (Mode config) "single"
  then
    match fetchFeedItems env 0 (SingleURL config) with
    | Err err => (Err ("error fetching single feed: " +:+ err), [])
    | Ok items => (Ok items, [])
    end
  else
    match readURLsFromFile env fs (InputFile config) with
    | Err err => (Err ("error reading input file: " +:+ err), [])
    | Ok urls => let '(allItems, log) := fan_out env urls in (Ok allItems, log)
    end.

(** The [less] function given to [sort.Slice]. *)
Definition created_after (a b : feeds.Item.t) : bool :=
  time.After (feeds.Item.Created a) (feeds.Item.Created b).

(** [allItems[:count]] when [len(allItems) > count]; a negative bound
    panics. *)
Definition truncate (allItems : list feeds.Item.t) (count : Z)
  : run (list feeds.Item.t) :=
  if (Z.of_nat (length allItems) >? count)%Z
  then
    if (count <? 0)%Z
    then Panics "slice bounds out of range"
    else Returns (take (Z.to_nat count) allItems)
  else Returns allItems.

(** [aggregateFeeds]: what the call returns, and the log output. *)
Definition aggregateFeeds (env : Env) (fs : gmap string string)
    (config : Config) : run (result feeds.Feed.t) * list string :=
  let '(fetched, log) := fetch_all env fs config in
  match fetched with
  | Err err => (Returns (Err err), log)
  | Ok allItems =>
      let allItems := sort.Slice created_after allItems in
      match truncate allItems (Count config) with
      | Panics msg => (Panics msg, log)
      | Returns allItems =>
          (Returns (Ok
             {| feeds.Feed.Title := "RSS Aggregator Feed";
                feeds.Feed.Link := {| feeds.Link.Href := EmptyString |};
                feeds.Feed.Description := "Aggregated RSS feed";
                feeds.Feed.Created := time_Now env;
                feeds.Feed.Items := allItems |}), log)
      end
  end.
End Program.

(** ** [outputFeed]: the file system after the call and the error returned *)
Definition outputFeed (env : Env) (feed : feeds.Feed.t) (outputFile : string)
    (fs : gmap string string) : gmap string string * option string :=
  match ToRss env feed with
  | Err err => (fs, Some ("error generating RSS: " +:+ err))
  | Ok rssString =>
      match os.Create env outputFile fs with
      | (fs, Err err) => (fs, Some ("error creating output file: " +:+ err))
      | (fs, Ok file) =>
          match os.WriteString env file rssString fs with
          | (fs, Some err) => (fs, Some ("error writing to output file: " +:+ err))
          | (fs, None) => (fs, None)
          end
      end
  end.


(** ** Notions used to state the properties *)

(** The item that carries the fields of a parsed entry. *)
Definition feedItem_of (item : rss.Item) : feeds.Item.t :=
  {| feeds.Item.Title := rss.Title item;
     feeds.Item.Link := {| feeds.Link.Href := rss.Link item |};
     feeds.Item.Description := rss.Summary item;
     feeds.Item.Created := rss.Date item;
     feeds.Item.Content := rss.Content item |}.

(** The lines of a file as the scanner delivers them. *)
Definition file_lines (data : string) : list string :=
  bufio.dropCR <$> bufio.split_lines data.

(** A trimmed line that is neither blank nor a comment. *)
Definition is_url (line : string) : bool :=
  negb (String.eqb line EmptyString) && negb (strings.HasPrefix line "#").

(** The file [filename] holds [data] and can be opened and read to its end:
    no failure of the operating system, and no line too long for the
    scanner. *)
Definition readable (env : Env) (fs : gmap string string) (filename data : string)
  : Prop :=
  fs !! filename = Some data ∧
  open_fault env filename = None ∧
  read_fault env filename = None ∧
  Forall (λ line, (Z.of_nat (String.length line) < bufio.MaxScanTokenSize)%Z)
         (bufio.split_lines data).

(** The goroutines of the fan-out in launch order, each with its URL. *)
Definition launched (urls : list string) : list (nat * string) :=
  imap (λ n url, (n, url)) urls.

(** The items of the fetches that succeed, and the warnings for those that
    fail, of a list of goroutines. *)
Definition items_of (env : Env) (gs : list (nat * string)) : list feeds.Item.t :=
  gs ≫= λ g, match fetchFeedItems env g.1 (strings.TrimSpace g.2) with
             | Ok items => items
             | Err _ => []
             end.

Definition warnings_of (env : Env) (gs : list (nat * string)) : list string :=
  gs ≫= λ g, match fetchFeedItems env g.1 (strings.TrimSpace g.2) with
             | Ok _ => []
             | Err err => [warning g.2 err]
             end.

(** ** Sample inputs, taken from the tests of the repository *)
Module samples.
Definition all_mode : Config :=
  {| InputFile := "test.txt"; Count := 10; Mode := "all";
     SingleURL := EmptyString; OutputFile := "output.xml" |}.
Definition single_mode : Config :=
  {| InputFile := EmptyString; Count := 5; Mode := "single";
     SingleURL := "http://example.com/rss"; OutputFile := "output.xml" |}.
Definition invalid_mode : Config :=
  {| InputFile := "test.txt"; Count := 10; Mode := "invalid";
     SingleURL := EmptyString; OutputFile := "output.xml" |}.
Definition missing_input : Config :=
  {| InputFile := EmptyString; Count := 10; Mode := "all";
     SingleURL := EmptyString; OutputFile := "output.xml" |}.
Definition negative_count : Config :=
  {| InputFile := "test.txt"; Count := -5; Mode := "all";
     SingleURL := EmptyString; OutputFile := "output.xml" |}.
Definition missing_url : Config :=
  {| InputFile := EmptyString; Count := 10; Mode := "single";
     SingleURL := EmptyString; OutputFile := "output.xml" |}.
Definition zero_count : Config :=
  {| InputFile := "test.txt"; Count := 0; Mode := "all";
     SingleURL := EmptyString; OutputFile := "output.xml" |}.

(** The contents of the URL files of [TestReadURLsFromFile]. *)
Definition nl : string := String (ascii_of_nat 10) EmptyString.
Definition tab : string := String (ascii_of_nat 9) EmptyString.
Definition urls_with_comments : string :=
  String.concat nl
    [ "# This is a comment"; "http://example.com/feed1.xml";
      "https://example.com/feed2.xml"; "# Another comment";
      "http://example.com/feed3.xml"; EmptyString;
      "# Empty line above should be ignored" ].
Definition only_comments : string :=
  String.concat nl [ "# Comment 1"; "# Comment 2"; EmptyString; "# Comment 3" ].
Definition urls_with_whitespace : string :=
  String.concat nl
    [ "  http://example.com/feed1.xml  ";
      tab +:+ "https://example.com/feed2.xml" +:+ tab;
      "http://example.com/feed3.xml" ].
(** A file with Windows line ends whose last line is a comment behind a
    no-break space (U+00A0) and an ideographic space (U+3000). *)
Definition urls_crlf : string :=
  "http://example.com/feed1.xml" +:+ String (ascii_of_nat 13) nl +:+
  String (ascii_of_nat 194) (String (ascii_of_nat 160) EmptyString) +:+
  String (ascii_of_nat 227) (String (ascii_of_nat 128)
    (String (ascii_of_nat 128) EmptyString)) +:+ "# comment".
End samples.

(** A configuration with another input file, or another single URL. *)
Definition with_InputFile (inputFile : string) (config : Config) : Config :=
  {| InputFile := inputFile; Count := Count config; Mode := Mode config;
     SingleURL := SingleURL config; OutputFile := OutputFile config |}.
Definition with_SingleURL (singleURL : string) (config : Config) : Config :=
  {| InputFile := InputFile config; Count := Count config; Mode := Mode config;
     SingleURL := singleURL; OutputFile := OutputFile config |}.

(** ** A sample run: two feeds of one item each, as in the tests *)
Module sample_run.
(** 2020-01-01 and 2020-01-02, 00:00:00 GMT, in seconds of the Unix era *)
Definition jan_1 : time.Time := 1577836800%Z.
Definition jan_2 : time.Time := 1577923200%Z.

Definition entry_1 : rss.Item :=
  {| rss.Title := "Item from Feed 1"; rss.Summary := "Item 1 description";
     rss.Content := EmptyString; rss.Link := "http://example.com/item1";
     rss.Date := jan_1; rss.DateValid := true |}.
Definition entry_2 : rss.Item :=
  {| rss.Title := "Item from Feed 2"; rss.Summary := "Item 2 description";
     rss.Content := "<p>Item 2</p>"; rss.Link := "http://example.com/item2";
     rss.Date := jan_2; rss.DateValid := true |}.
(** an entry without a date: the parser leaves the zero time
    (0001-01-01 00:00:00 UTC) in [Date] *)
Definition undated : rss.Item :=
  {| rss.Title := "Undated"; rss.Summary := "No pubDate";
     rss.Content := EmptyString; rss.Link := "http://example.com/undated";
     rss.Date := (-62135596800)%Z; rss.DateValid := false |}.

Definition network (n : nat) (url : string) : result rss.Feed :=
  if String.eqb url "http://127.0.0.1:8001" then Ok {| rss.Items := [entry_1] |}
  else if String.eqb url "http://127.0.0.1:8002" then Ok {| rss.Items := [entry_2] |}
  else if String.eqb url "http://127.0.0.1:8003" then Ok {| rss.Items := [undated] |}
  else Err "Get: connection refused".

Definition env : Env :=
  {| rss_Fetch := network;
     schedule := [1];
     time_Now := 1767225600%Z;          (* 2026-01-01 00:00:00 GMT *)
     ToRss := λ _, Err "unsupported";
     open_fault := λ _, None;
     read_fault := λ _, None;
     create_fault := λ _, None;
     write_fault := λ _ _, None |}.

Definition feeds_txt : string :=
  String.concat samples.nl
    [ "# Test feeds"; "  http://127.0.0.1:8001  "; EmptyString;
      "http://127.0.0.1:9999"; "http://127.0.0.1:8002"; EmptyString ].

Definition broken_txt : string :=
  String.concat samples.nl
    [ "http://127.0.0.1:9998"; "http://127.0.0.1:9999"; EmptyString ].

Definition fs : gmap string string :=
  {[ "feeds.txt" := feeds_txt; "broken.txt" := broken_txt;
     "aggregated.xml" := "<rss>old</rss>" ]}.

(** the same world with a serializer that works, and with a disk that is
    full as well *)
Definition rendering : Env :=
  {| rss_Fetch := network; schedule := [1]; time_Now := time_Now env;
     ToRss := λ _, Ok "<rss version=2.0></rss>";
     open_fault := λ _, None; read_fault := λ _, None;
     create_fault := λ _, None; write_fault := λ _ _, None |}.
Definition disk_full : Env :=
  {| rss_Fetch := network; schedule := [1]; time_Now := time_Now env;
     ToRss := λ _, Ok "<rss version=2.0></rss>";
     open_fault := λ _, None; read_fault := λ _, None;
     create_fault := λ _, None;
     write_fault := λ _ _, Some (0, "no space left on device") |}.

Definition empty_feed : feeds.Feed.t :=
  {| feeds.Feed.Title := "RSS Aggregator Feed";
     feeds.Feed.Link := {| feeds.Link.Href := EmptyString |};
     feeds.Feed.Description := "Aggregated RSS feed";
     feeds.Feed.Created := time_Now env;
     feeds.Feed.Items := [] |}.

Definition config (count : Z) : Config :=
  {| InputFile := "feeds.txt"; Count := count; Mode := "all";
     SingleURL := EmptyString; OutputFile := "aggregated.xml" |}.

Definition all_broken : Config :=
  {| InputFile := "broken.txt"; Count := 5; Mode := "all";
     SingleURL := EmptyString; OutputFile := "aggregated.xml" |}.

Definition single (url : string) : Config :=
  {| InputFile := EmptyString; Count := 5; Mode := "single";
     SingleURL := url; OutputFile := "aggregated.xml" |}.
End sample_run.

(** ** [main] *)

(** The values given on a command line that [flag.Parse] accepts: a flag
    that is not given keeps the default of its declaration. *)
Record Flags := {
  flag_input : option string;
  flag_count : option Z;
  flag_mode : option string;
  flag_single_url : option string;
  flag_output : option string
}.

(** The [Config] that [main] builds from the flags. *)
Definition parsed (flags : Flags) : Config :=
  {| InputFile := default EmptyString (flag_input flags);
     Count := default 10%Z (flag_count flags);
     Mode := default "all" (flag_mode flags);
     SingleURL := default EmptyString (flag_single_url flags);
     OutputFile := default "aggregated.xml" (flag_output flags) |}.

(** How the process ends: with an exit status ([log.Fatalf] exits with
    status 1 after printing, a return from [main] gives status 0) or with
    a panic. *)
Inductive termination : Type :=
  | Exit (status : Z)
  | Crash (msg : string).

Section Main.
Context `{!sort.Sorter}.

(** [main]: the file system and the log output when the process ends, and
    how it ends. *)
Definition main (env : Env) (fs : gmap string string) (flags : Flags)
  : gmap string string * list string * termination :=
  let config := parsed flags in
  match validateConfig config with
  | Some err => (fs, ["Configuration error: " +:+ err], Exit 1)
  | None =>
      match aggregateFeeds env fs config with
      | (Panics msg, log) => (fs, log, Crash msg)
      | (Returns (Err err), log) =>
          (fs, log ++ ["Error aggregating feeds: " +:+ err], Exit 1)
      | (Returns (Ok aggregatedFeed), log) =>
          match outputFeed env aggregatedFeed (OutputFile config) fs with
          | (fs, Some err) =>
              (fs, log ++ ["Error outputting feed: " +:+ err], Exit 1)
          | (fs, None) => (fs, log, Exit 0)
          end
      end
  end.
End Main.

(** ** Further notions used to state properties *)

(** The same world under other decisions of the scheduler. *)
Definition reschedule (decisions : list nat) (env : Env) : Env :=
  {| rss_Fetch := rss_Fetch env; schedule := decisions;
     time_Now := time_Now env; ToRss := ToRss env;
     open_fault := open_fault env; read_fault := read_fault env;
     create_fault := create_fault env; write_fault := write_fault env |}.

(** The text of a file whose lines are [lines], each ended by [eol]. *)
Definition unlines (eol : string) (lines : list string) : string :=
  foldr (λ line text, line +:+ eol +:+ text) EmptyString lines.

Definition LF : string := String bufio.newline EmptyString.
Definition CRLF : string := String bufio.carriage_return LF.

(** The string has no newline in it. *)
Definition one_line (s : string) : Prop :=
  bufio.newline ∉ String.list_ascii_of_string s.

(** A URL as [readURLsFromFile] returns them: one line, short enough for
    the scanner, trimmed, not empty and no comment. *)
Definition plain_url (url : string) : Prop :=
  one_line url ∧
  (Z.of_nat (String.length url) < bufio.MaxScanTokenSize)%Z ∧
  strings.TrimSpace url = url ∧
  is_url url = true.

(** The calls of [fetchFeedItems] that a run of [aggregateFeeds] makes:
    their rank and the URL passed. *)
Definition fetch_calls (env : Env) (fs : gmap string string) (config : Config)
  : list (nat * string) :=
  if String.eqb (Mode config) "single"
  then [(0, SingleURL config)]
  else
    match readURLsFromFile env fs (InputFile config) with
    | Ok urls => imap (λ n url, (n, strings.TrimSpace url)) urls
    | Err _ => []
    end.

(** A sorter other than the insertion sort: the merge sort of stdpp. *)
Definition merge_Slice {A : Type} (less : A → A → bool) (x : list A) : list A :=
  @merge_sort A (sort.follows less) (λ a b, decide (less b a = false)) x.

(** The feed that the sample run returns for a count of 5. *)
Definition sample_feed : feeds.Feed.t :=
  {| feeds.Feed.Title := "RSS Aggregator Feed";
     feeds.Feed.Link := {| feeds.Link.Href := EmptyString |};
     feeds.Feed.Description := "Aggregated RSS feed";
     feeds.Feed.Created := time_Now sample_run.env;
     feeds.Feed.Items :=
       [feedItem_of sample_run.entry_2; feedItem_of sample_run.entry_1] |}.

(** Command lines for the sample run. *)
Definition sample_flags (input : string) : Flags :=
  {| flag_input := Some input; flag_count := None; flag_mode := None;
     flag_single_url := None; flag_output := None |}.
Definition no_flags : Flags :=
  {| flag_input := None; flag_count := None; flag_mode := None;
     flag_single_url := None; flag_output := None |}.

(** A file that holds a URL and then a line of [MaxScanTokenSize] bytes. *)
Definition long_file : string :=
  "http://127.0.0.1:8001" +:+ LF +:+
  String.string_of_list_ascii
    (replicate (Z.to_nat bufio.MaxScanTokenSize) "a"%char) +:+ LF.

(** ** The lines of a file and their trimmed forms, in the words of the
    specification

    These notions do not use the scanner nor [strings.TrimSpace]: a file is
    the concatenation of its lines, and a trimmed form is what is left of a
    line between two runs of white-space runes. *)

Definition bytes_of (s : string) : list ascii := String.list_ascii_of_string s.

(** [lines] are the lines of the file [data]: none has a newline in it, and
    [data] is these lines, each followed by a newline, the last one possibly
    without it when it is not empty. *)
Definition file_of_lines (data : string) (lines : list string) : Prop :=
  Forall one_line lines ∧
  (data = unlines LF lines ∨
   ∃ init last, lines = init ++ [last] ∧ last ≠ EmptyString ∧
                data = unlines LF init +:+ last).

(** A run of white-space runes (Unicode's White_Space, as UTF-8). *)
Definition white_space (l : list ascii) : Prop :=
  ∃ runes, Forall (λ r, r ∈ strings.space_runes) runes ∧ l = concat runes.

Definition starts_with_space (l : list ascii) : Prop :=
  ∃ r rest, r ∈ strings.space_runes ∧ l = r ++ rest.

Definition ends_with_space (l : list ascii) : Prop :=
  ∃ r init, r ∈ strings.space_runes ∧ l = init ++ r.

(** [trimmed] is [line] without its leading and trailing white space. *)
Definition trimmed_form (line trimmed : string) : Prop :=
  ∃ front back,
    bytes_of line = front ++ bytes_of trimmed ++ back ∧
    white_space front ∧ white_space back ∧
    ¬ starts_with_space (bytes_of trimmed) ∧
    ¬ ends_with_space (bytes_of trimmed).

(** The string starts with '#'. *)
Definition comment (s : string) : Prop := ∃ rest, s = String "#"%char rest.

(** [urls] are, in the order of the file, the trimmed forms of those
    [lines] whose trimmed form is neither empty nor a comment. *)
Inductive url_lines : list string → list string → Prop :=
  | url_lines_end : url_lines [] []
  | url_lines_keep (line url : string) (lines urls : list string) :
      trimmed_form line url → url ≠ EmptyString → ¬ comment url →
      url_lines lines urls → url_lines (line :: lines) (url :: urls)
  | url_lines_skip (line trimmed : string) (lines urls : list string) :
      trimmed_form line trimmed → trimmed = EmptyString ∨ comment trimmed →
      url_lines lines urls → url_lines (line :: lines) urls.

(** The lines of the sample input file. *)
Definition feeds_txt_lines : list string :=
  [ "# Test feeds"; "  http://127.0.0.1:8001  "; EmptyString;
    "http://127.0.0.1:9999"; "http://127.0.0.1:8002" ].

(** The lines of [long_file]. *)
Definition long_file_lines : list string :=
  [ "http://127.0.0.1:8001";
    String.string_of_list_ascii
      (replicate (Z.to_nat bufio.MaxScanTokenSize) "a"%char) ].

(** * Properties *)

(** ** Strings *)

Lemma HasPrefix_app (p s : string) : strings.HasPrefix (p +:+ s) p = true.
Proof.
  unfold strings.HasPrefix.
  induction p as [|a p IH]; simpl.
  - by destruct s.
  - destruct (ascii_dec a a); [exact IH | done].
Qed.

Lemma Contains_HasPrefix (s u : string) :
  strings.HasPrefix s u = true → strings.Contains s u = true.
Proof. intros Hp. destruct s; cbn [strings.Contains]; by rewrite Hp. Qed.

Lemma Contains_app (a u b : string) : strings.Contains (a +:+ u +:+ b) u = true.
Proof.
  induction a as [|c a IH].
  - change (EmptyString +:+ u +:+ b) with (u +:+ b).
    apply Contains_HasPrefix, HasPrefix_app.
  - change (String c a +:+ u +:+ b) with (String c (a +:+ u +:+ b)).
    cbn [strings.Contains]. rewrite IH. apply orb_true_r.
Qed.

(** *** Trimming *)

Lemma strip_Some (p l l' : list ascii) :
  strings.strip p l = Some l' → l = p ++ l'.
Proof.
  revert l. induction p as [|a p IH]; intros [|b l]; simpl; try congruence.
  destruct (Ascii.eqb_spec a b) as [->|]; [|done].
  intros Hs. by rewrite (IH _ Hs).
Qed.

Lemma strip_app (p l k : list ascii) :
  is_Some (strings.strip p l) → is_Some (strings.strip p (l ++ k)).
Proof.
  revert l. induction p as [|a p IH]; intros [|b l]; simpl; eauto.
  - by intros [? ?].
  - destruct (Ascii.eqb a b); [apply IH | by intros [? ?]].
Qed.

Lemma strip_any_Some (runes : list (list ascii)) (l l' : list ascii) :
  strings.strip_any runes l = Some l' → ∃ p, p ∈ runes ∧ l = p ++ l'.
Proof.
  induction runes as [|p ps IH]; simpl; [done|].
  destruct (strings.strip p l) as [k|] eqn:Hk.
  - intros [= ->]. exists p. split; [left | by apply strip_Some].
  - intros Hl. destruct (IH Hl) as (q & Hq & ->). exists q. split; [by right | done].
Qed.

Lemma strip_any_app (runes : list (list ascii)) (l k : list ascii) :
  is_Some (strings.strip_any runes l) →
  is_Some (strings.strip_any runes (l ++ k)).
Proof.
  induction runes as [|p ps IH]; simpl; [done|].
  destruct (strings.strip p l) as [l'|] eqn:Hl.
  - intros _. destruct (strip_app p l k) as [k' ->]; eauto.
  - intros Hps. destruct (strings.strip p (l ++ k)); eauto.
Qed.

Lemma trim_front_id (runes : list (list ascii)) (n : nat) (l : list ascii) :
  strings.strip_any runes l = None → strings.trim_front runes n l = l.
Proof. intros Hl. destruct n; simpl; by rewrite ?Hl. Qed.

Lemma trim_front_suffix (runes : list (list ascii)) (n : nat) (l : list ascii) :
  ∃ dropped, l = dropped ++ strings.trim_front runes n l.
Proof.
  revert l. induction n as [|n IH]; intros l; simpl; [by exists []|].
  destruct (strings.strip_any runes l) as [l'|] eqn:Hl; [|by exists []].
  destruct (IH l') as [dropped Hd].
  apply strip_any_Some in Hl as (p & _ & ->).
  exists (p ++ dropped). by rewrite <- app_assoc, <- Hd.
Qed.

Section trimming.
Variable runes : list (list ascii).
Hypothesis runes_nonempty : Forall (λ p, p ≠ []) runes.

Lemma strip_any_shorter (l l' : list ascii) :
  strings.strip_any runes l = Some l' → length l' < length l.
Proof.
  intros (p & Hp & ->)%strip_any_Some.
  rewrite Forall_forall in runes_nonempty.
  specialize (runes_nonempty p Hp).
  destruct p; [done|]. rewrite length_app. simpl. lia.
Qed.

Lemma strip_any_nil : strings.strip_any runes [] = None.
Proof.
  destruct (strings.strip_any runes []) as [l'|] eqn:Hl; [|done].
  apply strip_any_shorter in Hl. simpl in Hl. lia.
Qed.

(** With enough fuel nothing is left to trim. *)
Lemma trim_front_done (n : nat) (l : list ascii) :
  length l ≤ n →
  strings.strip_any runes (strings.trim_front runes n l) = None.
Proof.
  revert l. induction n as [|n IH]; intros l Hn; simpl.
  - destruct l; [apply strip_any_nil | simpl in Hn; lia].
  - destruct (strings.strip_any runes l) as [l'|] eqn:Hl; [|done].
    apply IH. apply strip_any_shorter in Hl. lia.
Qed.
End trimming.

Lemma space_runes_nonempty : Forall (λ p, p ≠ []) strings.space_runes.
Proof. unfold strings.space_runes, strings.White_Space. by repeat constructor. Qed.

Lemma reverse_space_runes_nonempty :
  Forall (λ p, p ≠ []) (map reverse strings.space_runes).
Proof. unfold strings.space_runes, strings.White_Space. by repeat constructor. Qed.

Lemma TrimLeft_bytes_done (l : list ascii) :
  strings.strip_any strings.space_runes (strings.TrimLeft_bytes l) = None.
Proof. apply trim_front_done; [apply space_runes_nonempty | done]. Qed.

Lemma TrimRight_bytes_done (l : list ascii) :
  strings.strip_any (map reverse strings.space_runes)
    (reverse (strings.TrimRight_bytes l)) = None.
Proof.
  unfold strings.TrimRight_bytes. rewrite reverse_involutive.
  apply trim_front_done; [apply reverse_space_runes_nonempty|].
  by rewrite length_reverse.
Qed.

Lemma TrimRight_bytes_prefix (l : list ascii) :
  ∃ dropped, l = strings.TrimRight_bytes l ++ dropped.
Proof.
  unfold strings.TrimRight_bytes.
  destruct (trim_front_suffix (map reverse strings.space_runes) (length l)
              (reverse l)) as [dropped Hd].
  exists (reverse dropped).
  by rewrite <- reverse_app, <- Hd, reverse_involutive.
Qed.

(** Trimming a trimmed string changes nothing. *)
Lemma TrimSpace_idemp (s : string) :
  strings.TrimSpace (strings.TrimSpace s) = strings.TrimSpace s.
Proof.
  unfold strings.TrimSpace.
  rewrite String.list_ascii_of_string_of_list_ascii.
  set (front := strings.TrimLeft_bytes (String.list_ascii_of_string s)).
  assert (strings.TrimLeft_bytes (strings.TrimRight_bytes front)
          = strings.TrimRight_bytes front) as ->.
  { apply trim_front_id.
    destruct (strings.strip_any strings.space_runes
                (strings.TrimRight_bytes front)) as [k|] eqn:Hk; [|done].
    destruct (TrimRight_bytes_prefix front) as [dropped Hd].
    destruct (strip_any_app strings.space_runes (strings.TrimRight_bytes front)
                dropped) as [k' Hk']; [by eauto|].
    rewrite <- Hd in Hk'. unfold front in Hk'.
    by rewrite TrimLeft_bytes_done in Hk'. }
  f_equal. unfold strings.TrimRight_bytes at 1.
  rewrite trim_front_id by apply TrimRight_bytes_done.
  apply reverse_involutive.
Qed.

(** ** [validateConfig] *)

Ltac config_cases config :=
  unfold validateConfig;
  destruct (String.eqb_spec (Mode config) "single");
  destruct (String.eqb_spec (Mode config) "all");
  destruct (String.eqb_spec (SingleURL config) EmptyString);
  destruct (String.eqb_spec (InputFile config) EmptyString);
  destruct (Z.leb_spec (Count config) 0);
  simpl.

(** C6: a mode other than "single" and "all", a missing input file in mode
    "all" and a count that is not positive are each rejected with the
    message that names the defect. *)
Theorem validateConfig_rejects (config : Config) :
  (Mode config ≠ "single" → Mode config ≠ "all" →
   ∃ err, validateConfig config = Some err ∧
          strings.Contains err "mode must be 'single' or 'all'" = true) ∧
  (Mode config = "all" → InputFile config = EmptyString →
   ∃ err, validateConfig config = Some err ∧
          strings.Contains err "input file must be provided" = true) ∧
  (mode_field_given config → (Count config ≤ 0)%Z →
   ∃ err, validateConfig config = Some err ∧
          strings.Contains err "count must be greater than 0" = true).
Proof.
  split; [|split].
  - intros Hs Ha. exists "mode must be 'single' or 'all'".
    split; [|reflexivity]. config_cases config; congruence.
  - intros Ha Hi. exists "input file must be provided when mode is 'all'".
    split; [|reflexivity]. config_cases config; congruence.
  - intros Hgiven Hc. exists "count must be greater than 0".
    split; [|reflexivity].
    destruct Hgiven as [[Hm Hf]|[Hm Hf]];
      config_cases config; congruence || lia.
Qed.

Lemma validateConfig_rejects_witness :
  (∃ err, validateConfig samples.invalid_mode = Some err ∧
          strings.Contains err "mode must be 'single' or 'all'" = true) ∧
  (∃ err, validateConfig samples.missing_input = Some err ∧
          strings.Contains err "input file must be provided" = true) ∧
  (∃ err, validateConfig samples.negative_count = Some err ∧
          strings.Contains err "count must be greater than 0" = true).
Proof.
  split; [|split].
  - apply (proj1 (validateConfig_rejects samples.invalid_mode)); discriminate.
  - apply (proj1 (proj2 (validateConfig_rejects samples.missing_input)));
      reflexivity.
  - apply (proj2 (proj2 (validateConfig_rejects samples.negative_count))).
    + right. split; [reflexivity | discriminate].
    + simpl. lia.
Defined.

Lemma validateConfig_None_iff (config : Config) :
  validateConfig config = None ↔
  mode_field_given config ∧ (0 < Count config)%Z.
Proof.
  split.
  - unfold mode_field_given.
    config_cases config; intros; try discriminate; split; auto; lia.
  - unfold mode_field_given. intros [[[Hm Hf]|[Hm Hf]] Hc];
      config_cases config; congruence || lia.
Qed.

(** C9: a configuration is accepted exactly when its mode is "single" or
    "all", the field that this mode requires is not empty and the count is
    positive; the field of the other mode is not looked at, so that it may
    be empty. *)
Theorem validateConfig_accepts_iff (config : Config) :
  (validateConfig config = None ↔
   mode_field_given config ∧ (0 < Count config)%Z) ∧
  (Mode config = "single" → ∀ inputFile,
   validateConfig (with_InputFile inputFile config) = validateConfig config) ∧
  (Mode config = "all" → ∀ singleURL,
   validateConfig (with_SingleURL singleURL config) = validateConfig config) ∧
  (Mode config = "single" → SingleURL config ≠ EmptyString →
   (0 < Count config)%Z →
   validateConfig (with_InputFile EmptyString config) = None) ∧
  (Mode config = "all" → InputFile config ≠ EmptyString →
   (0 < Count config)%Z →
   validateConfig (with_SingleURL EmptyString config) = None).
Proof.
  split; [apply validateConfig_None_iff|].
  split; [|split; [|split]].
  - intros Hm inputFile. unfold validateConfig; simpl.
    rewrite Hm; reflexivity.
  - intros Hm singleURL. unfold validateConfig; simpl.
    rewrite Hm; reflexivity.
  - intros Hm Hurl Hk. apply validateConfig_None_iff.
    split; [by left | done].
  - intros Hm Hfile Hk. apply validateConfig_None_iff.
    split; [by right | done].
Qed.

Lemma validateConfig_accepts_iff_witness :
  validateConfig samples.single_mode = None ∧
  validateConfig samples.all_mode = None ∧
  InputFile samples.single_mode = EmptyString ∧
  SingleURL samples.all_mode = EmptyString ∧
  validateConfig (with_InputFile "feeds.txt" samples.single_mode) = None ∧
  validateConfig (with_SingleURL "http://example.com/rss" samples.all_mode) = None.
Proof.
  split; [|split; [|split; [|split; [|split]]]]; [| |reflexivity|reflexivity| |].
  - apply (proj1 (validateConfig_accepts_iff samples.single_mode)). split.
    + left. split; [reflexivity | discriminate].
    + simpl. lia.
  - apply (proj1 (validateConfig_accepts_iff samples.all_mode)). split.
    + right. split; [reflexivity | discriminate].
    + simpl. lia.
  - rewrite (proj1 (proj2 (validateConfig_accepts_iff samples.single_mode)));
      reflexivity.
  - rewrite (proj1 (proj2 (proj2 (validateConfig_accepts_iff samples.all_mode))));
      reflexivity.
Defined.

(** ** Sorting *)

Section insertion_sort.
Context {A : Type} (less : A → A → bool).

Lemma insert_left_Permutation (x : A) (sorted : list A) :
  sort.insert_left less x sorted ≡ₚ x :: sorted.
Proof.
  induction sorted as [|y rest IH]; simpl; [done|].
  destruct (less x y); [|done].
  rewrite IH. apply Permutation_swap.
Qed.

Lemma insertion_fold_Permutation (data sorted : list A) :
  foldl (λ sorted x, sort.insert_left less x sorted) sorted data
    ≡ₚ data ++ sorted.
Proof.
  revert sorted. induction data as [|x data IH]; intros sorted; simpl; [done|].
  rewrite IH, insert_left_Permutation. by rewrite Permutation_middle.
Qed.

Lemma insertionSort_Permutation (data : list A) :
  sort.insertionSort less data ≡ₚ data.
Proof.
  unfold sort.insertionSort.
  rewrite reverse_Permutation, insertion_fold_Permutation.
  by rewrite app_nil_r.
Qed.

Hypothesis less_asym : ∀ x y, less x y = true → less y x = false.

(** The sorted part, read from its right end, only descends. *)
Lemma insert_left_Sorted (x : A) (sorted : list A) :
  Sorted (flip (sort.follows less)) sorted →
  Sorted (flip (sort.follows less)) (sort.insert_left less x sorted).
Proof.
  induction 1 as [|y rest Hrest IH Hhd]; simpl.
  - repeat constructor.
  - destruct (less x y) eqn:Hxy.
    + constructor; [exact IH|].
      destruct Hhd as [|z rest' Hz]; simpl.
      * constructor. by apply less_asym.
      * destruct (less x z); constructor; [done|].
        by apply less_asym.
    + constructor; [by constructor|]. by constructor.
Qed.

Lemma insertion_fold_Sorted (data sorted : list A) :
  Sorted (flip (sort.follows less)) sorted →
  Sorted (flip (sort.follows less))
    (foldl (λ sorted x, sort.insert_left less x sorted) sorted data).
Proof.
  revert sorted. induction data as [|x data IH]; intros sorted Hs; simpl;
    [done|].
  by apply IH, insert_left_Sorted.
Qed.

Lemma insertionSort_Sorted (data : list A) :
  Sorted (sort.follows less) (sort.insertionSort less data).
Proof.
  unfold sort.insertionSort.
  apply (Sorted_reverse (flip (sort.follows less))).
  apply insertion_fold_Sorted. constructor.
Qed.
End insertion_sort.

Lemma StrictWeakOrdering_asym {A : Type} (less : A → A → bool) :
  sort.StrictWeakOrdering less → ∀ x y, less x y = true → less y x = false.
Proof.
  intros [Hirr Htr _] x y Hxy.
  destruct (less y x) eqn:Hyx; [|done].
  by rewrite <- (Hirr x), (Htr x y x).
Qed.

(** The insertion sort of the package meets the contract of [sort.Slice]. *)
#[export] Instance insertion_Sorter : sort.Sorter := {|
  sort.Slice := @sort.insertionSort;
  sort.Slice_Permutation := @insertionSort_Permutation;
  sort.Slice_Sorted := λ A less x Hless,
    insertionSort_Sorted less (StrictWeakOrdering_asym less Hless) x
|}.

Lemma created_after_StrictWeakOrdering : sort.StrictWeakOrdering created_after.
Proof.
  unfold created_after, time.After.
  split; intros; rewrite ?Z.ltb_lt, ?Z.ltb_ge in *; lia.
Qed.

Lemma follows_created_after (x y : feeds.Item.t) :
  sort.follows created_after x y ↔
  (feeds.Item.Created y ≤ feeds.Item.Created x)%Z.
Proof. unfold sort.follows, created_after, time.After. apply Z.ltb_ge. Qed.

#[local] Instance follows_created_after_trans :
  Transitive (sort.follows created_after).
Proof. intros x y z. rewrite !follows_created_after. lia. Qed.

(** ** Scheduling *)

Lemma completion_order_Permutation {A : Type} (decisions : list nat)
    (running : list A) :
  completion_order decisions running ≡ₚ running.
Proof.
  revert running.
  induction decisions as [|c decisions IH]; intros running; simpl; [done|].
  destruct (running !! (c mod length running)) as [g|] eqn:Hg.
  - rewrite IH. symmetry. by apply delete_Permutation.
  - destruct running as [|g running]; [done|].
    apply lookup_ge_None in Hg.
    pose proof (Nat.mod_upper_bound c (length (g :: running))) as Hlt.
    simpl in *. lia.
Qed.

(** Every order of completion is the outcome of some decisions. *)
Lemma completion_order_complete {A : Type} (running order : list A) :
  running ≡ₚ order → ∃ decisions, completion_order decisions running = order.
Proof.
  revert running.
  induction order as [|g order IH]; intros running Hperm.
  - apply Permutation_nil_r in Hperm as ->. by exists [].
  - assert (g ∈ running) as [k Hk]%list_elem_of_lookup
      by (rewrite Hperm; left).
    pose proof (delete_Permutation _ _ _ Hk) as Hdel.
    rewrite Hdel in Hperm. apply Permutation_cons_inv in Hperm.
    destruct (IH _ Hperm) as [decisions Hd].
    exists (k :: decisions). simpl.
    apply lookup_lt_Some in Hk as Hlt.
    rewrite Nat.mod_small by done. by rewrite Hk, Hd.
Qed.

(** ** [fetchFeedItems] *)

Lemma fetchFeedItems_step_feedItem_of (items : list feeds.Item.t) (item : rss.Item) :
  fetchFeedItems_step items item = items ++ [feedItem_of item].
Proof.
  unfold fetchFeedItems_step, feedItem_of.
  destruct (String.eqb_spec (rss.Content item) EmptyString) as [->|_];
    reflexivity.
Qed.

Lemma fetchFeedItems_loop (entries : list rss.Item) (items : list feeds.Item.t) :
  foldl fetchFeedItems_step items entries = items ++ (feedItem_of <$> entries).
Proof.
  revert items. induction entries as [|entry entries IH]; intros items; simpl.
  - by rewrite app_nil_r.
  - rewrite IH, fetchFeedItems_step_feedItem_of, <- app_assoc. reflexivity.
Qed.

Lemma fetchFeedItems_Ok (env : Env) (n : nat) (url : string) (feed : rss.Feed) :
  rss_Fetch env n url = Ok feed →
  fetchFeedItems env n url = Ok (feedItem_of <$> rss.Items feed).
Proof.
  intros Hfetch. unfold fetchFeedItems. rewrite Hfetch.
  by rewrite fetchFeedItems_loop.
Qed.

(** C8, amended: a fetched feed gives one item per parsed entry, in the order
    of the entries, with the title, the link, the summary as description and
    the entry's [Date] as creation time, whatever that date is. *)
Theorem fetchFeedItems_maps_entries (env : Env) (n : nat) (url : string)
    (feed : rss.Feed) :
  rss_Fetch env n url = Ok feed →
  ∃ items,
    fetchFeedItems env n url = Ok items ∧
    length items = length (rss.Items feed) ∧
    ∀ i entry, rss.Items feed !! i = Some entry →
      ∃ item, items !! i = Some item ∧
        feeds.Item.Title item = rss.Title entry ∧
        feeds.Link.Href (feeds.Item.Link item) = rss.Link entry ∧
        feeds.Item.Description item = rss.Summary entry ∧
        feeds.Item.Created item = rss.Date entry.
Proof.
  intros Hfetch. exists (feedItem_of <$> rss.Items feed).
  split; [by apply fetchFeedItems_Ok|]. split; [apply length_fmap|].
  intros i entry Hi. exists (feedItem_of entry).
  by rewrite list_lookup_fmap, Hi.
Qed.

Lemma fetchFeedItems_maps_entries_witness :
  ∃ items,
    fetchFeedItems sample_run.env 0 "http://127.0.0.1:8001" = Ok items ∧
    length items = 1 ∧
    ∀ i entry, [sample_run.entry_1] !! i = Some entry →
      ∃ item, items !! i = Some item ∧
        feeds.Item.Title item = rss.Title entry ∧
        feeds.Link.Href (feeds.Item.Link item) = rss.Link entry ∧
        feeds.Item.Description item = rss.Summary entry ∧
        feeds.Item.Created item = rss.Date entry.
Proof.
  apply (fetchFeedItems_maps_entries sample_run.env 0 "http://127.0.0.1:8001"
           {| rss.Items := [sample_run.entry_1] |}).
  reflexivity.
Defined.

(** C8, as stated, fails: an entry without a valid date does not get the
    time of the fetch; its item carries the date the parser left. *)
Lemma fetchFeedItems_no_fetch_time_fallback :
  ∃ item,
    fetchFeedItems sample_run.env 0 "http://127.0.0.1:8003" = Ok [item] ∧
    rss.DateValid sample_run.undated = false ∧
    feeds.Item.Created item = rss.Date sample_run.undated ∧
    feeds.Item.Created item ≠ time_Now sample_run.env.
Proof.
  exists (feedItem_of sample_run.undated).
  split; [reflexivity|]. split; [reflexivity|]. split; [reflexivity|].
  discriminate.
Qed.

(** C7, amended: the content of an item is the content of its entry: set
    when the entry has content, and otherwise the zero value of the field,
    the empty string, the value that copying the entry's empty content
    gives as well. *)
Theorem fetchFeedItems_content (env : Env) (n : nat) (url : string)
    (feed : rss.Feed) :
  rss_Fetch env n url = Ok feed →
  ∃ items,
    fetchFeedItems env n url = Ok items ∧
    ∀ i entry, rss.Items feed !! i = Some entry →
      ∃ item, items !! i = Some item ∧
        feeds.Item.Content item = rss.Content entry ∧
        (feeds.Item.Content item ≠ EmptyString ↔ rss.Content entry ≠ EmptyString) ∧
        (rss.Content entry = EmptyString → feeds.Item.Content item = EmptyString).
Proof.
  intros Hfetch. exists (feedItem_of <$> rss.Items feed).
  split; [by apply fetchFeedItems_Ok|].
  intros i entry Hi. exists (feedItem_of entry).
  by rewrite list_lookup_fmap, Hi.
Qed.

Lemma fetchFeedItems_content_witness :
  ∃ items,
    fetchFeedItems sample_run.env 0 "http://127.0.0.1:8002" = Ok items ∧
    ∀ i entry, [sample_run.entry_2] !! i = Some entry →
      ∃ item, items !! i = Some item ∧
        feeds.Item.Content item = rss.Content entry ∧
        (feeds.Item.Content item ≠ EmptyString ↔ rss.Content entry ≠ EmptyString) ∧
        (rss.Content entry = EmptyString → feeds.Item.Content item = EmptyString).
Proof.
  apply (fetchFeedItems_content sample_run.env 0 "http://127.0.0.1:8002"
           {| rss.Items := [sample_run.entry_2] |}).
  reflexivity.
Defined.

(** C7, as stated, fails: for an entry without content the field of the
    item is the empty string, and the item is the one that an entry with
    empty content gives. *)
Lemma fetchFeedItems_absent_content_is_empty :
  rss.Content sample_run.entry_1 = EmptyString ∧
  ∃ item,
    fetchFeedItems sample_run.env 0 "http://127.0.0.1:8001" = Ok [item] ∧
    feeds.Item.Content item = EmptyString.
Proof.
  split; [reflexivity|]. exists (feedItem_of sample_run.entry_1).
  split; reflexivity.
Qed.

(** ** [readURLsFromFile] *)

Lemma tokens_short (lines : list string) :
  Forall (λ line, (Z.of_nat (String.length line) < bufio.MaxScanTokenSize)%Z) lines →
  bufio.tokens lines = (bufio.dropCR <$> lines, None).
Proof.
  induction 1 as [|line lines Hline _ IH]; simpl; [done|].
  destruct (Z.leb_spec bufio.MaxScanTokenSize (Z.of_nat (String.length line)));
    [lia|].
  by rewrite IH.
Qed.

Lemma readURLs_step_is_url (urls : list string) (text : string) :
  readURLs_step urls text =
  urls ++ List.filter is_url [strings.TrimSpace text].
Proof.
  unfold readURLs_step, is_url. simpl.
  destruct (negb _ && negb _); [done | by rewrite app_nil_r].
Qed.

Lemma readURLs_loop (texts urls : list string) :
  foldl readURLs_step urls texts =
  urls ++ List.filter is_url (strings.TrimSpace <$> texts).
Proof.
  revert urls. induction texts as [|text texts IH]; intros urls.
  - simpl. by rewrite app_nil_r.
  - cbn [foldl]. rewrite IH, readURLs_step_is_url, <- app_assoc.
    f_equal. rewrite fmap_cons. simpl. by destruct (is_url _).
Qed.

Lemma readURLsFromFile_readable (env : Env) (fs : gmap string string)
    (filename data : string) :
  readable env fs filename data →
  readURLsFromFile env fs filename =
  Ok (List.filter is_url (strings.TrimSpace <$> file_lines data)).
Proof.
  intros (Hdata & Hopen & Hread & Hshort).
  unfold readURLsFromFile, os.Open, bufio.Scanner. simpl.
  rewrite Hopen, Hdata. simpl. rewrite Hdata. simpl.
  rewrite (tokens_short _ Hshort), Hread.
  by rewrite readURLs_loop.
Qed.

(** Only a readable file is read without error. *)
Lemma readURLsFromFile_Ok_readable (env : Env) (fs : gmap string string)
    (filename : string) (urls : list string) :
  readURLsFromFile env fs filename = Ok urls →
  ∃ data, readable env fs filename data.
Proof.
  unfold readURLsFromFile, os.Open, bufio.Scanner, readable. simpl.
  destruct (open_fault env filename); [done|].
  destruct (fs !! filename) as [data|] eqn:Hdata; [|done]. simpl.
  rewrite Hdata. simpl. intros Hok. exists data.
  assert (∀ lines, (bufio.tokens lines).2 = None →
    Forall (λ line, (Z.of_nat (String.length line) < bufio.MaxScanTokenSize)%Z)
           lines) as Hshort.
  { induction lines as [|line lines IH]; simpl; [constructor|].
    destruct (Z.leb_spec bufio.MaxScanTokenSize (Z.of_nat (String.length line)));
      [done|].
    destruct (bufio.tokens lines) as [tokens err]; simpl.
    intros ->. constructor; [done | by apply IH]. }
  specialize (Hshort (bufio.split_lines data)).
  destruct (bufio.tokens (bufio.split_lines data)) as [tokens [err|]];
    [done|].
  destruct (read_fault env filename); [done|]. auto.
Qed.

(** Readability of a given file with given contents, by evaluation. *)
Ltac readable_by_evaluation :=
  split; [reflexivity|]; split; [reflexivity|]; split; [reflexivity|];
  apply (bool_decide_unpack _); vm_compute; exact I.

(** The cases of [TestValidateConfig] and [TestReadURLsFromFile]. *)
Example TestValidateConfig :
  validateConfig samples.all_mode = None ∧
  validateConfig samples.single_mode = None ∧
  validateConfig samples.invalid_mode = Some "mode must be 'single' or 'all'" ∧
  validateConfig samples.missing_url =
    Some "single-url must be provided when mode is 'single'" ∧
  validateConfig samples.missing_input =
    Some "input file must be provided when mode is 'all'" ∧
  validateConfig samples.zero_count = Some "count must be greater than 0" ∧
  validateConfig samples.negative_count = Some "count must be greater than 0".
Proof. repeat split. Qed.

Example TestReadURLsFromFile :
  readURLsFromFile sample_run.env {[ "test.txt" := samples.urls_with_comments ]}
      "test.txt" =
    Ok ["http://example.com/feed1.xml"; "https://example.com/feed2.xml";
        "http://example.com/feed3.xml"] ∧
  readURLsFromFile sample_run.env {[ "test.txt" := samples.only_comments ]}
      "test.txt" = Ok [] ∧
  readURLsFromFile sample_run.env {[ "test.txt" := samples.urls_with_whitespace ]}
      "test.txt" =
    Ok ["http://example.com/feed1.xml"; "https://example.com/feed2.xml";
        "http://example.com/feed3.xml"] ∧
  readURLsFromFile sample_run.env {[ "test.txt" := samples.urls_crlf ]}
      "test.txt" = Ok ["http://example.com/feed1.xml"].
Proof. repeat split; vm_compute; reflexivity. Qed.

Example readURLsFromFile_sample :
  readURLsFromFile sample_run.env sample_run.fs "feeds.txt" =
  Ok ["http://127.0.0.1:8001"; "http://127.0.0.1:9999"; "http://127.0.0.1:8002"].
Proof. vm_compute. reflexivity. Qed.

Example readURLsFromFile_missing :
  readURLsFromFile sample_run.env sample_run.fs "nonexistent.txt" =
  Err "error opening file: open nonexistent.txt: no such file or directory".
Proof. vm_compute. reflexivity. Qed.

(** ** The fan-out *)

Lemma goroutine_fold (env : Env) (gs : list (nat * string))
    (allItems : list feeds.Item.t) (log : list string) :
  foldl (goroutine env) (allItems, log) gs =
  (allItems ++ items_of env gs, log ++ warnings_of env gs).
Proof.
  revert allItems log. induction gs as [|[n url] gs IH]; intros allItems log.
  - simpl. by rewrite !app_nil_r.
  - cbn [foldl]. unfold items_of, warnings_of. rewrite !bind_cons.
    unfold goroutine at 2. simpl.
    destruct (fetchFeedItems env n (strings.TrimSpace url)) as [items|err];
      rewrite IH; unfold items_of, warnings_of; simpl;
      by rewrite <- ?app_assoc.
Qed.

(** Whatever the scheduler decides, the fan-out collects the items of the
    fetches that succeed and logs one warning for each that fails. *)
Lemma fan_out_collects (env : Env) (urls : list string) :
  (fan_out env urls).1 ≡ₚ items_of env (launched urls) ∧
  (fan_out env urls).2 ≡ₚ warnings_of env (launched urls).
Proof.
  unfold fan_out. rewrite goroutine_fold. simpl. fold (launched urls).
  unfold items_of, warnings_of.
  by rewrite !completion_order_Permutation.
Qed.

Lemma launched_lookup (urls : list string) (n : nat) (url : string) :
  (n, url) ∈ launched urls ↔ urls !! n = Some url.
Proof.
  unfold launched. rewrite elem_of_lookup_imap. split.
  - by intros (i & y & [= -> ->] & Hy).
  - intros Hn. by exists n, url.
Qed.

Lemma items_of_all_failed (env : Env) (urls : list string) :
  (∀ n url, urls !! n = Some url →
     ∃ err, fetchFeedItems env n (strings.TrimSpace url) = Err err) →
  items_of env (launched urls) = [].
Proof.
  intros Hfail. unfold items_of.
  assert (∀ g, g ∈ launched urls →
    ∃ err, fetchFeedItems env g.1 (strings.TrimSpace g.2) = Err err) as Hg.
  { intros [n url] Hin. apply Hfail. by apply launched_lookup. }
  clear Hfail. induction (launched urls) as [|g gs IH]; [done|].
  rewrite bind_cons.
  destruct (Hg g) as [err ->]; [left|]. simpl.
  apply IH. intros g' Hg'. apply Hg. by right.
Qed.

Lemma warnings_of_failed (env : Env) (urls : list string) (n : nat)
    (url err : string) :
  urls !! n = Some url →
  fetchFeedItems env n (strings.TrimSpace url) = Err err →
  warning url err ∈ warnings_of env (launched urls).
Proof.
  intros Hn Hfail. unfold warnings_of. apply list_elem_of_bind.
  exists (n, url). simpl. rewrite Hfail.
  split; [left | by apply launched_lookup].
Qed.

Lemma warning_names_url (url err : string) :
  strings.Contains (warning url err) url = true.
Proof. unfold warning. apply Contains_app. Qed.

(** ** Truncation *)

Lemma truncate_take (allItems : list feeds.Item.t) (count : Z) :
  (0 ≤ count)%Z →
  truncate allItems count = Returns (take (Z.to_nat count) allItems).
Proof.
  intros Hc. unfold truncate.
  destruct (Z.gtb_spec (Z.of_nat (length allItems)) count).
  - destruct (Z.ltb_spec count 0); [lia | done].
  - rewrite take_ge; [done | lia].
Qed.

Lemma truncate_Returns (allItems kept : list feeds.Item.t) (count : Z) :
  truncate allItems count = Returns kept →
  kept = take (Z.to_nat count) allItems ∧
  (kept = allItems ∨ (0 ≤ count)%Z).
Proof.
  unfold truncate.
  destruct (Z.gtb_spec (Z.of_nat (length allItems)) count).
  - destruct (Z.ltb_spec count 0); [done|]. intros [= <-]. auto.
  - intros [= <-]. rewrite take_ge; [auto | lia].
Qed.

Lemma StronglySorted_lookup {A : Type} (R : relation A) (l : list A)
    (i j : nat) (x y : A) :
  StronglySorted R l → l !! i = Some x → l !! j = Some y → i < j → R x y.
Proof.
  intros Hl Hi Hj Hij.
  rewrite <- (take_drop_middle l i x Hi) in Hl.
  apply StronglySorted_app_1_r, StronglySorted_cons in Hl as [Hx _].
  rewrite Forall_forall in Hx. apply Hx.
  apply list_elem_of_lookup. exists (j - S i).
  rewrite lookup_drop. by replace (S i + (j - S i)) with j by lia.
Qed.

(** ** [aggregateFeeds] *)

Section aggregate.
Context `{!sort.Sorter}.

Lemma sorted_items_StronglySorted (allItems : list feeds.Item.t) :
  StronglySorted (sort.follows created_after)
    (sort.Slice created_after allItems).
Proof.
  apply Sorted_StronglySorted; [apply _|].
  apply sort.Slice_Sorted, created_after_StrictWeakOrdering.
Qed.

(** After a fetch phase that returns [allItems], a non-negative count
    gives the feed of the first [count] sorted items. *)
Lemma aggregateFeeds_fetched (env : Env) (fs : gmap string string)
    (config : Config) (allItems : list feeds.Item.t) (log : list string) :
  (0 ≤ Count config)%Z →
  fetch_all env fs config = (Ok allItems, log) →
  ∃ feed,
    aggregateFeeds env fs config = (Returns (Ok feed), log) ∧
    feeds.Feed.Items feed =
      take (Z.to_nat (Count config)) (sort.Slice created_after allItems).
Proof.
  intros Hc Hfetch. unfold aggregateFeeds. rewrite Hfetch.
  rewrite truncate_take by done. eexists. split; reflexivity.
Qed.

(** C1: when the fetches give [N] items and the count is [k > 0], the
    feed returned holds [min N k] items, and these are most recent ones:
    no item left out was created after an item kept. *)
Theorem aggregateFeeds_truncation (env : Env) (fs : gmap string string)
    (config : Config) (allItems : list feeds.Item.t) (log : list string) :
  (0 < Count config)%Z →
  fetch_all env fs config = (Ok allItems, log) →
  ∃ feed rest,
    aggregateFeeds env fs config = (Returns (Ok feed), log) ∧
    length (feeds.Feed.Items feed) =
      min (length allItems) (Z.to_nat (Count config)) ∧
    feeds.Feed.Items feed ++ rest ≡ₚ allItems ∧
    ∀ x y, x ∈ feeds.Feed.Items feed → y ∈ rest →
      (feeds.Item.Created y ≤ feeds.Item.Created x)%Z.
Proof.
  intros Hk Hfetch.
  destruct (aggregateFeeds_fetched env fs config allItems log)
    as (feed & Hrun & Hitems); [lia | done |].
  exists feed, (drop (Z.to_nat (Count config))
                  (sort.Slice created_after allItems)).
  split; [done|]. rewrite Hitems. split; [|split].
  - rewrite length_take, (Permutation_length (sort.Slice_Permutation _ _ _)).
    lia.
  - rewrite take_drop. apply sort.Slice_Permutation.
  - intros x y Hx Hy. apply follows_created_after.
    pose proof (sorted_items_StronglySorted allItems) as Hsorted.
    rewrite <- (take_drop (Z.to_nat (Count config))) in Hsorted.
    by apply (StronglySorted_app_1_elem_of _ _ _ _ _ Hsorted).
Qed.

(** C2: the items of a feed returned are in the order of their creation
    times, the most recent first: none is older than its successor. *)
Theorem aggregateFeeds_sorted (env : Env) (fs : gmap string string)
    (config : Config) (feed : feeds.Feed.t) (log : list string) :
  aggregateFeeds env fs config = (Returns (Ok feed), log) →
  ∀ i x y,
    feeds.Feed.Items feed !! i = Some x →
    feeds.Feed.Items feed !! S i = Some y →
    (feeds.Item.Created y ≤ feeds.Item.Created x)%Z.
Proof.
  unfold aggregateFeeds.
  destruct (fetch_all env fs config) as [[allItems|err] log']; [|done].
  destruct (truncate _ _) as [kept|msg] eqn:Hkept; [|done].
  intros [= <- <-] i x y Hx Hy. simpl in Hx, Hy.
  apply truncate_Returns in Hkept as [-> _].
  apply follows_created_after.
  pose proof (sorted_items_StronglySorted allItems) as Hsorted.
  rewrite <- (take_drop (Z.to_nat (Count config))) in Hsorted.
  apply StronglySorted_app_1_l in Hsorted.
  apply (StronglySorted_lookup _ _ i (S i) x y Hsorted); [done | done | lia].
Qed.

(** C4: in mode "single" a failing fetch makes the whole call fail: the
    error is returned and no feed. *)
Theorem aggregateFeeds_single_fetch_error (env : Env)
    (fs : gmap string string) (config : Config) (err : string) :
  Mode config = "single" →
  fetchFeedItems env 0 (SingleURL config) = Err err →
  aggregateFeeds env fs config =
    (Returns (Err ("error fetching single feed: " +:+ err)), []) ∧
  ∀ feed log, aggregateFeeds env fs config ≠ (Returns (Ok feed), log).
Proof.
  intros Hmode Hfetch.
  assert (aggregateFeeds env fs config =
          (Returns (Err ("error fetching single feed: " +:+ err)), []))
    as ->; [|by split].
  unfold aggregateFeeds, fetch_all. by rewrite Hmode, Hfetch.
Qed.

Lemma fetch_all_readable (env : Env) (fs : gmap string string)
    (config : Config) (data : string) :
  Mode config = "all" →
  readable env fs (InputFile config) data →
  fetch_all env fs config =
    (Ok (fan_out env (List.filter is_url
                        (strings.TrimSpace <$> file_lines data))).1,
     (fan_out env (List.filter is_url
                     (strings.TrimSpace <$> file_lines data))).2).
Proof.
  intros Hmode Hr. unfold fetch_all. rewrite Hmode. simpl.
  rewrite (readURLsFromFile_readable _ _ _ _ Hr).
  by destruct (fan_out _ _).
Qed.

(** C3: in mode "all", with a valid configuration and a readable input
    file, no failing fetch makes the call fail. The feed returned is made
    of the items of the fetches that succeeded, each fetch that failed is
    logged with a warning that names its URL, and when every fetch fails
    the feed returned is empty. *)
Theorem aggregateFeeds_all_tolerates_failures (env : Env)
    (fs : gmap string string) (config : Config) (data : string) :
  validateConfig config = None →
  Mode config = "all" →
  readable env fs (InputFile config) data →
  let urls := List.filter is_url (strings.TrimSpace <$> file_lines data) in
  ∃ feed log allItems,
    aggregateFeeds env fs config = (Returns (Ok feed), log) ∧
    allItems ≡ₚ items_of env (launched urls) ∧
    feeds.Feed.Items feed =
      take (Z.to_nat (Count config)) (sort.Slice created_after allItems) ∧
    log ≡ₚ warnings_of env (launched urls) ∧
    (∀ n url err,
       urls !! n = Some url →
       fetchFeedItems env n (strings.TrimSpace url) = Err err →
       warning url err ∈ log ∧
       strings.Contains (warning url err) url = true) ∧
    ((∀ n url, urls !! n = Some url →
        ∃ err, fetchFeedItems env n (strings.TrimSpace url) = Err err) →
     feeds.Feed.Items feed = []).
Proof.
  intros Hvalid Hmode Hr urls.
  apply validateConfig_None_iff in Hvalid as [_ Hk].
  pose proof (fetch_all_readable env fs config data Hmode Hr) as Hfetch.
  fold urls in Hfetch.
  destruct (fan_out_collects env urls) as [Hitems Hlog].
  destruct (aggregateFeeds_fetched env fs config _ _ ltac:(lia) Hfetch)
    as (feed & Hrun & Hfeed).
  exists feed, (fan_out env urls).2, (fan_out env urls).1.
  repeat split; try done.
  - rewrite Hlog. by eapply warnings_of_failed.
  - apply warning_names_url.
  - intros Hfail. rewrite Hfeed.
    rewrite (items_of_all_failed env urls Hfail) in Hitems.
    apply Permutation_nil_r in Hitems. rewrite Hitems.
    pose proof (sort.Slice_Permutation _ created_after []) as Hnil.
    apply Permutation_nil_r in Hnil. rewrite Hnil. by rewrite take_nil.
Qed.
End aggregate.

(** *** The sample run: the second goroutine, whose fetch fails, finishes
    first; the two others follow in launch order. *)

Example sample_run_fetch_all :
  fetch_all sample_run.env sample_run.fs (sample_run.config 1) =
  (Ok [feedItem_of sample_run.entry_1; feedItem_of sample_run.entry_2],
   [warning "http://127.0.0.1:9999" "Get: connection refused"]).
Proof. vm_compute. reflexivity. Qed.

Example sample_run_aggregateFeeds :
  aggregateFeeds sample_run.env sample_run.fs (sample_run.config 5) =
  (Returns (Ok
     {| feeds.Feed.Title := "RSS Aggregator Feed";
        feeds.Feed.Link := {| feeds.Link.Href := EmptyString |};
        feeds.Feed.Description := "Aggregated RSS feed";
        feeds.Feed.Created := time_Now sample_run.env;
        feeds.Feed.Items :=
          [feedItem_of sample_run.entry_2; feedItem_of sample_run.entry_1] |}),
   [warning "http://127.0.0.1:9999" "Get: connection refused"]).
Proof. vm_compute. reflexivity. Qed.

(** A negative count, which [validateConfig] rejects, makes the slice
    expression panic. *)
Example sample_run_negative_count :
  (aggregateFeeds sample_run.env sample_run.fs (sample_run.config (-1))).1 =
  Panics "slice bounds out of range".
Proof. vm_compute. reflexivity. Qed.

(** Every fetch fails: an empty feed and two warnings, no error. *)
Example sample_run_all_broken :
  aggregateFeeds sample_run.env sample_run.fs sample_run.all_broken =
  (Returns (Ok sample_run.empty_feed),
   [warning "http://127.0.0.1:9999" "Get: connection refused";
    warning "http://127.0.0.1:9998" "Get: connection refused"]).
Proof. vm_compute. reflexivity. Qed.

Lemma aggregateFeeds_truncation_witness :
  ∃ feed rest,
    aggregateFeeds sample_run.env sample_run.fs (sample_run.config 1) =
      (Returns (Ok feed),
       [warning "http://127.0.0.1:9999" "Get: connection refused"]) ∧
    length (feeds.Feed.Items feed) = min 2 1 ∧
    feeds.Feed.Items feed ++ rest ≡ₚ
      [feedItem_of sample_run.entry_1; feedItem_of sample_run.entry_2] ∧
    ∀ x y, x ∈ feeds.Feed.Items feed → y ∈ rest →
      (feeds.Item.Created y ≤ feeds.Item.Created x)%Z.
Proof.
  apply (@aggregateFeeds_truncation insertion_Sorter sample_run.env
           sample_run.fs (sample_run.config 1)
           [feedItem_of sample_run.entry_1; feedItem_of sample_run.entry_2]
           [warning "http://127.0.0.1:9999" "Get: connection refused"]).
  - simpl. lia.
  - vm_compute. reflexivity.
Defined.

Lemma aggregateFeeds_sorted_witness :
  (feeds.Item.Created (feedItem_of sample_run.entry_1)
   ≤ feeds.Item.Created (feedItem_of sample_run.entry_2))%Z.
Proof.
  apply (@aggregateFeeds_sorted insertion_Sorter sample_run.env sample_run.fs
           (sample_run.config 5)
           {| feeds.Feed.Title := "RSS Aggregator Feed";
              feeds.Feed.Link := {| feeds.Link.Href := EmptyString |};
              feeds.Feed.Description := "Aggregated RSS feed";
              feeds.Feed.Created := time_Now sample_run.env;
              feeds.Feed.Items :=
                [feedItem_of sample_run.entry_2; feedItem_of sample_run.entry_1] |}
           [warning "http://127.0.0.1:9999" "Get: connection refused"]
           ltac:(vm_compute; reflexivity)
           0 (feedItem_of sample_run.entry_2) (feedItem_of sample_run.entry_1));
    reflexivity.
Defined.

Lemma aggregateFeeds_single_fetch_error_witness :
  aggregateFeeds sample_run.env sample_run.fs
      (sample_run.single "http://127.0.0.1:9999") =
    (Returns (Err "error fetching single feed: Get: connection refused"), []) ∧
  ∀ feed log,
    aggregateFeeds sample_run.env sample_run.fs
      (sample_run.single "http://127.0.0.1:9999") ≠ (Returns (Ok feed), log).
Proof.
  apply (@aggregateFeeds_single_fetch_error insertion_Sorter sample_run.env
           sample_run.fs (sample_run.single "http://127.0.0.1:9999")
           "Get: connection refused").
  - reflexivity.
  - vm_compute. reflexivity.
Defined.

Lemma aggregateFeeds_all_tolerates_failures_witness :
  let urls := List.filter is_url
                (strings.TrimSpace <$> file_lines sample_run.feeds_txt) in
  ∃ feed log allItems,
    aggregateFeeds sample_run.env sample_run.fs (sample_run.config 5) =
      (Returns (Ok feed), log) ∧
    allItems ≡ₚ items_of sample_run.env (launched urls) ∧
    feeds.Feed.Items feed =
      take (Z.to_nat 5) (sort.Slice created_after allItems) ∧
    log ≡ₚ warnings_of sample_run.env (launched urls) ∧
    (∀ n url err,
       urls !! n = Some url →
       fetchFeedItems sample_run.env n (strings.TrimSpace url) = Err err →
       warning url err ∈ log ∧
       strings.Contains (warning url err) url = true) ∧
    ((∀ n url, urls !! n = Some url →
        ∃ err, fetchFeedItems sample_run.env n (strings.TrimSpace url) = Err err) →
     feeds.Feed.Items feed = []).
Proof.
  apply (@aggregateFeeds_all_tolerates_failures insertion_Sorter sample_run.env
           sample_run.fs (sample_run.config 5) sample_run.feeds_txt).
  - reflexivity.
  - reflexivity.
  - readable_by_evaluation.
Defined.

(** ** [outputFeed] *)

(** C10: when the serialization fails, [outputFeed] returns its error and
    leaves the file system as it was: the output file is neither created
    nor truncated. *)
Theorem outputFeed_serialization_error (env : Env) (feed : feeds.Feed.t)
    (outputFile : string) (fs : gmap string string) (err : string) :
  ToRss env feed = Err err →
  outputFeed env feed outputFile fs =
    (fs, Some ("error generating RSS: " +:+ err)) ∧
  (outputFeed env feed outputFile fs).1 !! outputFile = fs !! outputFile.
Proof.
  intros Hrss. unfold outputFeed. by rewrite Hrss.
Qed.

Lemma outputFeed_serialization_error_witness :
  outputFeed sample_run.env sample_run.empty_feed "aggregated.xml" sample_run.fs =
    (sample_run.fs, Some "error generating RSS: unsupported") ∧
  (outputFeed sample_run.env sample_run.empty_feed "aggregated.xml"
     sample_run.fs).1 !! "aggregated.xml" = Some "<rss>old</rss>".
Proof.
  apply (outputFeed_serialization_error sample_run.env sample_run.empty_feed
           "aggregated.xml" sample_run.fs "unsupported").
  reflexivity.
Defined.

(** Once the serialization has succeeded the file is created or truncated
    before anything is written: a failing write leaves it empty. *)
Lemma outputFeed_write_error (env : Env) (feed : feeds.Feed.t)
    (outputFile rssString : string) (fs : gmap string string) (err : string) :
  ToRss env feed = Ok rssString →
  create_fault env outputFile = None →
  write_fault env outputFile rssString = Some (0, err) →
  outputFeed env feed outputFile fs =
    (<[outputFile := EmptyString]> fs,
     Some ("error writing to output file: " +:+ err)).
Proof.
  intros Hrss Hcreate Hwrite.
  unfold outputFeed, os.Create, os.WriteString. rewrite Hrss, Hcreate. simpl.
  rewrite Hwrite, lookup_insert_eq. simpl.
  replace (os.substring_to 0 rssString) with EmptyString
    by (by destruct rssString).
  by rewrite insert_insert_eq.
Qed.

Lemma outputFeed_written (env : Env) (feed : feeds.Feed.t)
    (outputFile rssString : string) (fs : gmap string string) :
  ToRss env feed = Ok rssString →
  create_fault env outputFile = None →
  write_fault env outputFile rssString = None →
  outputFeed env feed outputFile fs = (<[outputFile := rssString]> fs, None).
Proof.
  intros Hrss Hcreate Hwrite.
  unfold outputFeed, os.Create, os.WriteString. rewrite Hrss, Hcreate. simpl.
  rewrite Hwrite, lookup_insert_eq. simpl.
  by rewrite insert_insert_eq.
Qed.

Example outputFeed_sample_written :
  (outputFeed sample_run.rendering sample_run.empty_feed "aggregated.xml"
     sample_run.fs).1 !! "aggregated.xml" = Some "<rss version=2.0></rss>".
Proof. vm_compute. reflexivity. Qed.

Example outputFeed_sample_disk_full :
  (outputFeed sample_run.disk_full sample_run.empty_feed "aggregated.xml"
     sample_run.fs).1 !! "aggregated.xml" = Some EmptyString.
Proof. vm_compute. reflexivity. Qed.

(** * Further properties of the program *)

(** ** [validateConfig]: which error is reported *)

Lemma validateConfig_missing_input (config : Config) :
  Mode config = "all" ∧ InputFile config = EmptyString →
  validateConfig config = Some "input file must be provided when mode is 'all'".
Proof. intros [Ha Hi]. config_cases config; congruence. Qed.

(** X1: the error returned names the first defect in the order of the
    checks: the mode, then the field the mode requires, then the count. *)
Theorem validateConfig_reports_first_defect (config : Config) :
  (validateConfig config = Some "mode must be 'single' or 'all'" ↔
   Mode config ≠ "single" ∧ Mode config ≠ "all") ∧
  (validateConfig config =
     Some "single-url must be provided when mode is 'single'" ↔
   Mode config = "single" ∧ SingleURL config = EmptyString) ∧
  (validateConfig config =
     Some "input file must be provided when mode is 'all'" ↔
   Mode config = "all" ∧ InputFile config = EmptyString) ∧
  (validateConfig config = Some "count must be greater than 0" ↔
   mode_field_given config ∧ (Count config ≤ 0)%Z).
Proof.
  unfold mode_field_given.
  split; [|split; [|split]]; split.
  - config_cases config; intros Herr; try discriminate Herr; by split.
  - intros [Hs Ha]. config_cases config; congruence.
  - config_cases config; intros Herr; try discriminate Herr; by split.
  - intros [Hs Hu]. config_cases config; congruence.
  - config_cases config; intros Herr; try discriminate Herr; by split.
  - intros [Ha Hi]. config_cases config; congruence.
  - config_cases config; intros Herr; try discriminate Herr;
      (split; [tauto | lia]).
  - intros [[[Hm Hf]|[Hm Hf]] Hk]; config_cases config; congruence || lia.
Qed.

Lemma validateConfig_reports_first_defect_witness :
  validateConfig
    {| InputFile := EmptyString; Count := 0; Mode := "single";
       SingleURL := EmptyString; OutputFile := EmptyString |} =
  Some "single-url must be provided when mode is 'single'".
Proof.
  apply (proj2 (proj1 (proj2 (validateConfig_reports_first_defect _)))).
  split; reflexivity.
Defined.

(** ** [aggregateFeeds]: the count, the input file, the origin of the items *)

Section aggregate_more.
Context `{!sort.Sorter}.

Lemma aggregateFeeds_Err (env : Env) (fs : gmap string string)
    (config : Config) (err : string) (log : list string) :
  fetch_all env fs config = (Err err, log) →
  aggregateFeeds env fs config = (Returns (Err err), log).
Proof. intros Hfetch. unfold aggregateFeeds. by rewrite Hfetch. Qed.

(** X2: [aggregateFeeds] does not check the count. Once the fetches are
    done, a negative count makes the slice expression panic, and only a
    negative count does; a count of zero gives a feed without items. *)
Theorem aggregateFeeds_unvalidated_count (env : Env)
    (fs : gmap string string) (config : Config)
    (allItems : list feeds.Item.t) (log : list string) :
  fetch_all env fs config = (Ok allItems, log) →
  ((Count config < 0)%Z ↔
   aggregateFeeds env fs config = (Panics "slice bounds out of range", log)) ∧
  (Count config = 0%Z →
   ∃ feed, aggregateFeeds env fs config = (Returns (Ok feed), log) ∧
           feeds.Feed.Items feed = []).
Proof.
  intros Hfetch. split; [split|].
  - intros Hneg. unfold aggregateFeeds. rewrite Hfetch. unfold truncate.
    destruct (Z.gtb_spec (Z.of_nat (length (sort.Slice created_after allItems)))
                (Count config)); [|lia].
    destruct (Z.ltb_spec (Count config) 0); [done | lia].
  - intros Hpanic.
    destruct (Z.lt_ge_cases (Count config) 0) as [|Hk]; [done|].
    destruct (aggregateFeeds_fetched env fs config allItems log Hk Hfetch)
      as (feed & Hrun & _).
    by rewrite Hrun in Hpanic.
  - intros Hzero.
    destruct (aggregateFeeds_fetched env fs config allItems log) as (feed & Hrun & Hitems);
      [lia | done |].
    exists feed. split; [done|]. by rewrite Hitems, Hzero.
Qed.

(** X3: a mode other than "single" is run as "all", and such a run returns
    an error exactly when the input file is not readable; the error then
    says so and nothing is logged. No failure of a fetch makes it fail. *)
Theorem aggregateFeeds_all_fails_iff_unreadable (env : Env)
    (fs : gmap string string) (config : Config) :
  Mode config ≠ "single" →
  ((∃ err log, aggregateFeeds env fs config = (Returns (Err err), log)) ↔
   ¬ ∃ data, readable env fs (InputFile config) data) ∧
  (∀ err log, aggregateFeeds env fs config = (Returns (Err err), log) →
     log = [] ∧
     strings.HasPrefix err "error reading input file: " = true).
Proof.
  intros Hmode. apply String.eqb_neq in Hmode.
  assert (∀ err log, aggregateFeeds env fs config = (Returns (Err err), log) →
    ∃ err', readURLsFromFile env fs (InputFile config) = Err err' ∧
            err = "error reading input file: " +:+ err' ∧ log = []) as Hfail.
  { intros err log. unfold aggregateFeeds, fetch_all. rewrite Hmode.
    destruct (readURLsFromFile env fs (InputFile config)) as [urls|err'].
    - destruct (fan_out env urls) as [allItems log'].
      by destruct (truncate _ _).
    - intros [= <- <-]. by exists err'. }
  split; [split|].
  - intros (err & log & Hrun) [data Hr].
    destruct (Hfail _ _ Hrun) as (err' & Hread & _).
    by rewrite (readURLsFromFile_readable _ _ _ _ Hr) in Hread.
  - intros Hunreadable.
    destruct (readURLsFromFile env fs (InputFile config)) as [urls|err'] eqn:Hread.
    + destruct Hunreadable. by eapply readURLsFromFile_Ok_readable.
    + exists ("error reading input file: " +:+ err'), [].
      apply aggregateFeeds_Err. unfold fetch_all. by rewrite Hmode, Hread.
  - intros err log Hrun. destruct (Hfail _ _ Hrun) as (err' & _ & -> & ->).
    split; [done | apply HasPrefix_app].
Qed.

Lemma items_of_elem (env : Env) (gs : list (nat * string)) (x : feeds.Item.t) :
  x ∈ items_of env gs →
  ∃ n url feed entry,
    (n, url) ∈ gs ∧
    rss_Fetch env n (strings.TrimSpace url) = Ok feed ∧
    entry ∈ rss.Items feed ∧ x = feedItem_of entry.
Proof.
  unfold items_of. intros ([n url] & Hx & Hg)%list_elem_of_bind.
  simpl in Hx. unfold fetchFeedItems in Hx.
  destruct (rss_Fetch env n (strings.TrimSpace url)) as [feed|err] eqn:Hfetch;
    [|by apply not_elem_of_nil in Hx].
  rewrite fetchFeedItems_loop in Hx. simpl in Hx.
  apply list_elem_of_fmap in Hx as (entry & -> & Hentry).
  by exists n, url, feed, entry.
Qed.

Lemma truncate_subset (allItems kept : list feeds.Item.t) (count : Z)
    (x : feeds.Item.t) :
  truncate allItems count = Returns kept → x ∈ kept → x ∈ allItems.
Proof.
  intros [-> _]%truncate_Returns Hx.
  rewrite <- (take_drop (Z.to_nat count) allItems).
  apply elem_of_app. by left.
Qed.

(** X4: every item of a feed returned was made from an entry of a feed
    that one of the fetches of the run delivered. *)
Theorem aggregateFeeds_item_origin (env : Env) (fs : gmap string string)
    (config : Config) (feed : feeds.Feed.t) (log : list string)
    (x : feeds.Item.t) :
  aggregateFeeds env fs config = (Returns (Ok feed), log) →
  x ∈ feeds.Feed.Items feed →
  ∃ n url fetched entry,
    (n, url) ∈ fetch_calls env fs config ∧
    rss_Fetch env n url = Ok fetched ∧
    entry ∈ rss.Items fetched ∧
    x = feedItem_of entry.
Proof.
  unfold aggregateFeeds.
  destruct (fetch_all env fs config) as [[allItems|err] log'] eqn:Hfetch;
    [|done].
  destruct (truncate _ _) as [kept|msg] eqn:Hkept; [|done].
  intros [= <- <-] Hx. simpl in Hx.
  apply (truncate_subset _ _ _ _ Hkept) in Hx.
  rewrite (sort.Slice_Permutation _ created_after allItems) in Hx.
  revert Hfetch. unfold fetch_all, fetch_calls.
  destruct (String.eqb (Mode config) "single").
  - unfold fetchFeedItems.
    destruct (rss_Fetch env 0 (SingleURL config)) as [fetched|err] eqn:Hf;
      [|done].
    intros [= <- _]. rewrite fetchFeedItems_loop in Hx. simpl in Hx.
    apply list_elem_of_fmap in Hx as (entry & -> & Hentry).
    exists 0, (SingleURL config), fetched, entry.
    repeat split; [left | done..].
  - destruct (readURLsFromFile env fs (InputFile config)) as [urls|err];
      [|done].
    pose proof (fan_out_collects env urls) as [Hitems _].
    destruct (fan_out env urls) as [allItems' log'']. intros [= <- _].
    simpl in Hitems. rewrite Hitems in Hx.
    apply items_of_elem in Hx as (n & url & fetched & entry & Hg & Hf & He & ->).
    exists n, (strings.TrimSpace url), fetched, entry.
    repeat split; [|done..].
    apply launched_lookup in Hg. by apply elem_of_lookup_imap_2 with (i := n) (f := λ n url, (n, strings.TrimSpace url)) in Hg.
Qed.
End aggregate_more.

Lemma aggregateFeeds_unvalidated_count_witness :
  ((-1 < 0)%Z ↔
   aggregateFeeds sample_run.env sample_run.fs (sample_run.config (-1)) =
     (Panics "slice bounds out of range",
      [warning "http://127.0.0.1:9999" "Get: connection refused"])) ∧
  ((-1)%Z = 0%Z →
   ∃ feed,
     aggregateFeeds sample_run.env sample_run.fs (sample_run.config (-1)) =
       (Returns (Ok feed),
        [warning "http://127.0.0.1:9999" "Get: connection refused"]) ∧
     feeds.Feed.Items feed = []).
Proof.
  apply (@aggregateFeeds_unvalidated_count insertion_Sorter sample_run.env
           sample_run.fs (sample_run.config (-1))
           [feedItem_of sample_run.entry_1; feedItem_of sample_run.entry_2]).
  vm_compute. reflexivity.
Defined.

Lemma aggregateFeeds_all_fails_iff_unreadable_witness :
  ((∃ err log,
      aggregateFeeds sample_run.env sample_run.fs
        (with_InputFile "nonexistent.txt" (sample_run.config 5)) =
      (Returns (Err err), log)) ↔
   ¬ ∃ data, readable sample_run.env sample_run.fs "nonexistent.txt" data) ∧
  (∀ err log,
     aggregateFeeds sample_run.env sample_run.fs
       (with_InputFile "nonexistent.txt" (sample_run.config 5)) =
     (Returns (Err err), log) →
     log = [] ∧
     strings.HasPrefix err "error reading input file: " = true).
Proof.
  apply (@aggregateFeeds_all_fails_iff_unreadable insertion_Sorter
           sample_run.env sample_run.fs
           (with_InputFile "nonexistent.txt" (sample_run.config 5))).
  discriminate.
Defined.

Example sample_run_unreadable :
  aggregateFeeds sample_run.env sample_run.fs
    (with_InputFile "nonexistent.txt" (sample_run.config 5)) =
  (Returns (Err ("error reading input file: error opening file: " +:+
                 "open nonexistent.txt: no such file or directory")), []).
Proof. vm_compute. reflexivity. Qed.

Lemma aggregateFeeds_item_origin_witness :
  ∃ n url fetched entry,
    (n, url) ∈ fetch_calls sample_run.env sample_run.fs (sample_run.config 1) ∧
    rss_Fetch sample_run.env n url = Ok fetched ∧
    entry ∈ rss.Items fetched ∧
    feedItem_of sample_run.entry_2 = feedItem_of entry.
Proof.
  apply (@aggregateFeeds_item_origin insertion_Sorter sample_run.env
           sample_run.fs (sample_run.config 1)
           {| feeds.Feed.Title := "RSS Aggregator Feed";
              feeds.Feed.Link := {| feeds.Link.Href := EmptyString |};
              feeds.Feed.Description := "Aggregated RSS feed";
              feeds.Feed.Created := time_Now sample_run.env;
              feeds.Feed.Items := [feedItem_of sample_run.entry_2] |}
           [warning "http://127.0.0.1:9999" "Get: connection refused"]).
  - vm_compute. reflexivity.
  - left.
Defined.

(** ** [aggregateFeeds]: what does not depend on the schedule or the sort *)

Lemma merge_Slice_Sorted {A : Type} (less : A → A → bool) (x : list A) :
  sort.StrictWeakOrdering less → Sorted (sort.follows less) (merge_Slice less x).
Proof.
  intros Hless. unfold merge_Slice. apply Sorted_merge_sort.
  intros a b. unfold sort.follows.
  destruct (less b a) eqn:Hba; [|by left].
  right. by apply (StrictWeakOrdering_asym less Hless).
Qed.

(** The merge sort meets the contract of [sort.Slice] as well. *)
Definition merge_Sorter : sort.Sorter := {|
  sort.Slice := @merge_Slice;
  sort.Slice_Permutation := λ A less x, merge_sort_Permutation _ x;
  sort.Slice_Sorted := @merge_Slice_Sorted
|}.

#[local] Instance later_first_trans : Transitive (λ t u : Z, (u ≤ t)%Z).
Proof. intros t u v. lia. Qed.
#[local] Instance later_first_antisym : AntiSymm (=) (λ t u : Z, (u ≤ t)%Z).
Proof. intros t u. lia. Qed.

(** The creation times of a sorted slice are fixed by the items in it. *)
Lemma sorted_times_unique (S1 S2 : sort.Sorter)
    (items1 items2 : list feeds.Item.t) :
  items1 ≡ₚ items2 →
  feeds.Item.Created <$> @sort.Slice S1 _ created_after items1 =
  feeds.Item.Created <$> @sort.Slice S2 _ created_after items2.
Proof.
  intros Hperm.
  apply (Sorted_unique (λ t u : Z, (u ≤ t)%Z)).
  - eapply Sorted_fmap; [|apply sort.Slice_Sorted, created_after_StrictWeakOrdering].
    intros x y. apply follows_created_after.
  - eapply Sorted_fmap; [|apply sort.Slice_Sorted, created_after_StrictWeakOrdering].
    intros x y. apply follows_created_after.
  - by rewrite !sort.Slice_Permutation, Hperm.
Qed.

Lemma truncate_same_length (items1 items2 kept : list feeds.Item.t) (count : Z) :
  truncate items1 count = Returns kept →
  length items2 = length items1 →
  truncate items2 count = Returns (take (Z.to_nat count) items2).
Proof.
  unfold truncate. intros Hkept Hlen. rewrite Hlen.
  destruct (Z.gtb_spec (Z.of_nat (length items1)) count).
  - destruct (Z.ltb_spec count 0); [done|]. reflexivity.
  - rewrite take_ge; [done | lia].
Qed.

Lemma fetch_all_reschedule (env : Env) (decisions : list nat)
    (fs : gmap string string) (config : Config)
    (allItems : list feeds.Item.t) (log : list string) :
  fetch_all env fs config = (Ok allItems, log) →
  ∃ allItems' log',
    fetch_all (reschedule decisions env) fs config = (Ok allItems', log') ∧
    allItems' ≡ₚ allItems ∧ log' ≡ₚ log.
Proof.
  unfold fetch_all.
  change (readURLsFromFile (reschedule decisions env))
    with (readURLsFromFile env).
  change (fetchFeedItems (reschedule decisions env)) with (fetchFeedItems env).
  destruct (String.eqb (Mode config) "single").
  - destruct (fetchFeedItems env 0 (SingleURL config)); [|done].
    intros [= <- <-]. by eexists _, _.
  - destruct (readURLsFromFile env fs (InputFile config)) as [urls|]; [|done].
    pose proof (fan_out_collects env urls) as [Hi Hl].
    pose proof (fan_out_collects (reschedule decisions env) urls) as [Hi' Hl'].
    destruct (fan_out env urls), (fan_out (reschedule decisions env) urls).
    intros [= <- <-]. eexists _, _. split; [done|]. simpl in *.
    split; [by rewrite Hi', Hi | by rewrite Hl', Hl].
Qed.

(** X5: the creation times of the items returned, in their order, depend
    neither on the order in which the goroutines finish nor on the sorting
    algorithm; the same warnings are logged, in some order. *)
Theorem aggregateFeeds_times_independent (S1 S2 : sort.Sorter) (env : Env)
    (decisions : list nat) (fs : gmap string string) (config : Config)
    (feed : feeds.Feed.t) (log : list string) :
  @aggregateFeeds S1 env fs config = (Returns (Ok feed), log) →
  ∃ feed' log',
    @aggregateFeeds S2 (reschedule decisions env) fs config =
      (Returns (Ok feed'), log') ∧
    feeds.Item.Created <$> feeds.Feed.Items feed' =
      feeds.Item.Created <$> feeds.Feed.Items feed ∧
    log' ≡ₚ log.
Proof.
  unfold aggregateFeeds at 1.
  destruct (fetch_all env fs config) as [[allItems|err] log0] eqn:Hfetch;
    [|done].
  destruct (truncate _ _) as [kept|msg] eqn:Hkept; [|done].
  intros [= <- <-].
  destruct (fetch_all_reschedule env decisions fs config _ _ Hfetch)
    as (allItems' & log' & Hfetch' & Hitems & Hlog).
  unfold aggregateFeeds. rewrite Hfetch'.
  rewrite (truncate_same_length _ (@sort.Slice S2 _ created_after allItems')
             _ _ Hkept)
    by (by rewrite !(Permutation_length (sort.Slice_Permutation _ _ _)),
                   Hitems).
  eexists _, _. split; [done|]. split; [|done]. simpl.
  apply truncate_Returns in Hkept as [-> _].
  rewrite !fmap_take. f_equal. by apply sorted_times_unique.
Qed.

(** X6: when no two items fetched have the same creation time, the feed
    returned is the same under every schedule and every sorting algorithm. *)
Theorem aggregateFeeds_deterministic_distinct_times (S1 S2 : sort.Sorter)
    (env : Env) (decisions : list nat) (fs : gmap string string)
    (config : Config) (allItems : list feeds.Item.t)
    (feed : feeds.Feed.t) (log log0 : list string) :
  fetch_all env fs config = (Ok allItems, log0) →
  (∀ x y, x ∈ allItems → y ∈ allItems →
     feeds.Item.Created x = feeds.Item.Created y → x = y) →
  @aggregateFeeds S1 env fs config = (Returns (Ok feed), log) →
  ∃ log',
    @aggregateFeeds S2 (reschedule decisions env) fs config =
      (Returns (Ok feed), log') ∧
    log' ≡ₚ log.
Proof.
  intros Hfetch Hdistinct. unfold aggregateFeeds at 1. rewrite Hfetch.
  destruct (truncate _ _) as [kept|msg] eqn:Hkept; [|done].
  intros [= <- <-].
  destruct (fetch_all_reschedule env decisions fs config _ _ Hfetch)
    as (allItems' & log' & Hfetch' & Hitems & Hlog).
  assert (@sort.Slice S2 _ created_after allItems' =
          @sort.Slice S1 _ created_after allItems) as Hsame.
  { apply (StronglySorted_unique_strong (sort.follows created_after)).
    - intros x y Hx Hy Hxy Hyx.
      rewrite sort.Slice_Permutation in Hx. rewrite sort.Slice_Permutation in Hy.
      rewrite Hitems in Hx.
      apply Hdistinct; [done..|].
      apply follows_created_after in Hxy, Hyx. lia.
    - apply sorted_items_StronglySorted.
    - apply sorted_items_StronglySorted.
    - by rewrite !sort.Slice_Permutation. }
  unfold aggregateFeeds. rewrite Hfetch', Hsame, Hkept.
  by exists log'.
Qed.

Lemma aggregateFeeds_times_independent_witness :
  ∃ feed' log',
    @aggregateFeeds merge_Sorter (reschedule [2; 0] sample_run.env)
      sample_run.fs (sample_run.config 5) = (Returns (Ok feed'), log') ∧
    feeds.Item.Created <$> feeds.Feed.Items feed' =
      feeds.Item.Created <$> feeds.Feed.Items sample_feed ∧
    log' ≡ₚ [warning "http://127.0.0.1:9999" "Get: connection refused"].
Proof.
  apply (aggregateFeeds_times_independent insertion_Sorter merge_Sorter
           sample_run.env [2; 0] sample_run.fs (sample_run.config 5)
           sample_feed
           [warning "http://127.0.0.1:9999" "Get: connection refused"]).
  vm_compute. reflexivity.
Defined.

Lemma aggregateFeeds_deterministic_distinct_times_witness :
  ∃ log',
    @aggregateFeeds merge_Sorter (reschedule [2; 0] sample_run.env)
      sample_run.fs (sample_run.config 5) = (Returns (Ok sample_feed), log') ∧
    log' ≡ₚ [warning "http://127.0.0.1:9999" "Get: connection refused"].
Proof.
  apply (aggregateFeeds_deterministic_distinct_times insertion_Sorter
           merge_Sorter sample_run.env [2; 0] sample_run.fs
           (sample_run.config 5)
           [feedItem_of sample_run.entry_1; feedItem_of sample_run.entry_2]
           sample_feed
           [warning "http://127.0.0.1:9999" "Get: connection refused"]
           [warning "http://127.0.0.1:9999" "Get: connection refused"]).
  - vm_compute. reflexivity.
  - intros x y Hx Hy.
    apply elem_of_cons in Hx as [->|Hx]; [|apply list_elem_of_singleton in Hx as ->];
      (apply elem_of_cons in Hy as [->|Hy];
       [|apply list_elem_of_singleton in Hy as ->]);
      try reflexivity; discriminate.
  - vm_compute. reflexivity.
Defined.

(** Under the other schedule the goroutines append in another order. *)
Example sample_run_rescheduled :
  (fetch_all (reschedule [2; 0] sample_run.env) sample_run.fs
     (sample_run.config 5)).1 =
  Ok [feedItem_of sample_run.entry_2; feedItem_of sample_run.entry_1].
Proof. vm_compute. reflexivity. Qed.

(** ** [outputFeed]: what is written, and where *)

Lemma outputFeed_lookup_other (env : Env) (feed : feeds.Feed.t)
    (outputFile path : string) (fs : gmap string string) :
  path ≠ outputFile →
  (outputFeed env feed outputFile fs).1 !! path = fs !! path.
Proof.
  intros Hpath. unfold outputFeed, os.Create, os.WriteString.
  destruct (ToRss env feed) as [rssString|err]; [|done].
  destruct (create_fault env outputFile); [done|]. simpl.
  destruct (write_fault env outputFile rssString) as [[n err]|]; simpl;
    by rewrite !lookup_insert_ne.
Qed.

(** X7: [outputFeed] changes no file but the output file, whether it
    succeeds or fails. *)
Theorem outputFeed_only_touches_output (env : Env) (feed : feeds.Feed.t)
    (outputFile path : string) (fs : gmap string string) :
  path ≠ outputFile →
  (outputFeed env feed outputFile fs).1 !! path = fs !! path.
Proof. apply outputFeed_lookup_other. Qed.

Lemma outputFeed_only_touches_output_witness :
  (outputFeed sample_run.rendering sample_feed "aggregated.xml"
     sample_run.fs).1 !! "feeds.txt" = sample_run.fs !! "feeds.txt".
Proof.
  apply (outputFeed_only_touches_output sample_run.rendering sample_feed
           "aggregated.xml" "feeds.txt" sample_run.fs).
  discriminate.
Defined.

Lemma outputFeed_None_inv (env : Env) (feed : feeds.Feed.t)
    (outputFile : string) (fs fs' : gmap string string) :
  outputFeed env feed outputFile fs = (fs', None) →
  ∃ rssString,
    ToRss env feed = Ok rssString ∧
    fs' = <[outputFile := rssString]> fs.
Proof.
  unfold outputFeed, os.Create, os.WriteString.
  destruct (ToRss env feed) as [rssString|err]; [|done].
  destruct (create_fault env outputFile); [done|]. simpl.
  destruct (write_fault env outputFile rssString) as [[n err]|]; [done|].
  rewrite lookup_insert_eq. simpl. rewrite insert_insert_eq.
  intros [= <-]. by exists rssString.
Qed.

(** X8: when [outputFeed] returns no error, the output file holds the
    serialized feed and nothing of what it held before. *)
Theorem outputFeed_success_contents (env : Env) (feed : feeds.Feed.t)
    (outputFile : string) (fs fs' : gmap string string) :
  outputFeed env feed outputFile fs = (fs', None) →
  ∃ rssString,
    ToRss env feed = Ok rssString ∧
    fs' = <[outputFile := rssString]> fs.
Proof. apply outputFeed_None_inv. Qed.

Lemma outputFeed_success_contents_witness :
  ∃ rssString,
    ToRss sample_run.rendering sample_feed = Ok rssString ∧
    <[ "aggregated.xml" := "<rss version=2.0></rss>" ]> sample_run.fs =
    <[ "aggregated.xml" := rssString ]> sample_run.fs.
Proof.
  apply (outputFeed_success_contents sample_run.rendering sample_feed
           "aggregated.xml" sample_run.fs).
  vm_compute. reflexivity.
Defined.

(** X9: the output file is truncated before the write: when the write
    fails after [n] bytes, the file holds the first [n] bytes of the
    serialized feed, and what it held before is lost. *)
Theorem outputFeed_failed_write (env : Env) (feed : feeds.Feed.t)
    (outputFile rssString : string) (fs : gmap string string)
    (n : nat) (err : string) :
  ToRss env feed = Ok rssString →
  create_fault env outputFile = None →
  write_fault env outputFile rssString = Some (n, err) →
  outputFeed env feed outputFile fs =
    (<[outputFile := String.substring 0 n rssString]> fs,
     Some ("error writing to output file: " +:+ err)).
Proof.
  intros Hrss Hcreate Hwrite.
  unfold outputFeed, os.Create, os.WriteString. rewrite Hrss, Hcreate. simpl.
  rewrite Hwrite, lookup_insert_eq. simpl.
  by rewrite insert_insert_eq.
Qed.

Lemma outputFeed_failed_write_witness :
  outputFeed sample_run.disk_full sample_feed "aggregated.xml" sample_run.fs =
    (<[ "aggregated.xml" := String.substring 0 0 "<rss version=2.0></rss>" ]>
       sample_run.fs,
     Some ("error writing to output file: " +:+ "no space left on device")).
Proof.
  apply (outputFeed_failed_write sample_run.disk_full sample_feed
           "aggregated.xml" "<rss version=2.0></rss>" sample_run.fs 0
           "no space left on device"); reflexivity.
Defined.

(** ** [main] *)

Section main_properties.
Context `{!sort.Sorter}.

Lemma aggregateFeeds_valid (env : Env) (fs : gmap string string)
    (config : Config) :
  validateConfig config = None →
  ∃ r log, aggregateFeeds env fs config = (Returns r, log) ∧
    ∀ feed, r = Ok feed →
      length (feeds.Feed.Items feed) ≤ Z.to_nat (Count config).
Proof.
  intros [_ Hk]%validateConfig_None_iff.
  destruct (fetch_all env fs config) as [[allItems|err] log] eqn:Hfetch.
  - destruct (aggregateFeeds_fetched env fs config allItems log)
      as (feed & -> & Hitems); [lia | done |].
    eexists _, _. split; [done|]. intros feed' [= <-].
    rewrite Hitems, length_take. lia.
  - rewrite (aggregateFeeds_Err _ _ _ _ _ Hfetch). by eexists _, _.
Qed.

(** X10: once [flag.Parse] has accepted the command line, and every fetch
    returning, [main] does not end in a panic: the validation keeps a
    negative count away from the slice expression, and the process ends
    with status 0 or 1. *)
Theorem main_never_crashes (env : Env) (fs : gmap string string)
    (flags : Flags) :
  ∃ fs' log status,
    main env fs flags = (fs', log, Exit status) ∧
    (status = 0%Z ∨ status = 1%Z).
Proof.
  unfold main.
  destruct (validateConfig (parsed flags)) as [err|] eqn:Hvalid.
  { eexists _, _, _. split; [done | by right]. }
  destruct (aggregateFeeds_valid env fs _ Hvalid) as (r & log & -> & _).
  destruct r as [feed|err].
  - destruct (outputFeed env feed (OutputFile (parsed flags)) fs)
      as [fs' [err|]]; eexists _, _, _; (split; [done | auto]).
  - eexists _, _, _. split; [done | by right].
Qed.

(** X11: when [main], after [flag.Parse] has accepted the command line,
    runs to its end (status 0), the configuration was valid, the output file
    holds the serialization of the feed that [aggregateFeeds] returned, this
    feed has no more items than the count (10 when [-count] is not given),
    and only the warnings of the fetches were logged. *)
Theorem main_success (env : Env) (fs fs' : gmap string string)
    (flags : Flags) (log : list string) :
  main env fs flags = (fs', log, Exit 0) →
  ∃ feed rssString,
    validateConfig (parsed flags) = None ∧
    aggregateFeeds env fs (parsed flags) = (Returns (Ok feed), log) ∧
    ToRss env feed = Ok rssString ∧
    fs' = <[OutputFile (parsed flags) := rssString]> fs ∧
    length (feeds.Feed.Items feed) ≤ Z.to_nat (Count (parsed flags)) ∧
    (flag_count flags = None → length (feeds.Feed.Items feed) ≤ 10).
Proof.
  unfold main.
  destruct (validateConfig (parsed flags)) as [err|] eqn:Hvalid; [done|].
  destruct (aggregateFeeds_valid env fs _ Hvalid) as (r & log' & Hrun & Hlen).
  rewrite Hrun. destruct r as [feed|err]; [|done].
  destruct (outputFeed env feed (OutputFile (parsed flags)) fs)
    as [fs'' [err|]] eqn:Hout; [done|].
  intros [= <- <-].
  apply outputFeed_None_inv in Hout as (rssString & Hrss & ->).
  exists feed, rssString. repeat split; try done.
  - by apply Hlen.
  - intros Hcount. specialize (Hlen feed eq_refl).
    unfold parsed in Hlen. simpl in Hlen. rewrite Hcount in Hlen.
    simpl in Hlen. lia.
Qed.

(** X12: [main] changes no file but the output file; when it fails before
    the output, on the configuration or in the aggregation, it changes no
    file at all. *)
Theorem main_only_touches_output (env : Env) (fs : gmap string string)
    (flags : Flags) :
  (∀ path, path ≠ OutputFile (parsed flags) →
     (main env fs flags).1.1 !! path = fs !! path) ∧
  ((validateConfig (parsed flags) ≠ None ∨
    ∃ err log, aggregateFeeds env fs (parsed flags) = (Returns (Err err), log)) →
   (main env fs flags).1.1 = fs).
Proof.
  unfold main. split.
  - intros path Hpath.
    destruct (validateConfig (parsed flags)); [done|].
    destruct (aggregateFeeds env fs (parsed flags)) as [[[feed|err]|msg] log];
      [|done..].
    pose proof (outputFeed_lookup_other env feed _ path fs Hpath) as Hout.
    by destruct (outputFeed env feed (OutputFile (parsed flags)) fs)
      as [fs' [err|]].
  - intros [Hinvalid|(err & log & Hrun)].
    + by destruct (validateConfig (parsed flags)).
    + destruct (validateConfig (parsed flags)); [done|]. by rewrite Hrun.
Qed.

(** X13: with a valid configuration in mode "all", a readable input file, a
    serializer that works and an output file that can be written, [main]
    runs to its end with status 0 whether the fetches succeed or fail, each
    of them returning: the output file then holds the serialization of the
    feed that [aggregateFeeds] returned, the log is the warnings of the
    fetches that failed, and when all of them fail the feed written has no
    item. *)
Theorem main_tolerates_fetch_failures (env : Env) (fs : gmap string string)
    (flags : Flags) (data : string) :
  validateConfig (parsed flags) = None →
  Mode (parsed flags) = "all" →
  readable env fs (InputFile (parsed flags)) data →
  (∀ feed, ∃ rssString, ToRss env feed = Ok rssString) →
  create_fault env (OutputFile (parsed flags)) = None →
  (∀ rssString, write_fault env (OutputFile (parsed flags)) rssString = None) →
  let urls := List.filter is_url (strings.TrimSpace <$> file_lines data) in
  ∃ feed rssString log,
    aggregateFeeds env fs (parsed flags) = (Returns (Ok feed), log) ∧
    ToRss env feed = Ok rssString ∧
    main env fs flags =
      (<[OutputFile (parsed flags) := rssString]> fs, log, Exit 0) ∧
    log ≡ₚ warnings_of env (launched urls) ∧
    ((∀ n url, urls !! n = Some url →
        ∃ err, fetchFeedItems env n (strings.TrimSpace url) = Err err) →
     feeds.Feed.Items feed = []).
Proof.
  intros Hvalid Hmode Hr Hrss Hcreate Hwrite urls.
  pose proof (fetch_all_readable env fs _ data Hmode Hr) as Hfetch.
  fold urls in Hfetch.
  destruct (fan_out_collects env urls) as [Hitems Hlog].
  apply validateConfig_None_iff in Hvalid as Hk. destruct Hk as [_ Hk].
  destruct (aggregateFeeds_fetched env fs (parsed flags) _ _
              (Z.lt_le_incl _ _ Hk) Hfetch) as (feed & Hrun & Hfeed).
  destruct (Hrss feed) as [rssString Hser].
  exists feed, rssString, (fan_out env urls).2.
  split; [done|]. split; [done|]. split; [|split; [done|]].
  - unfold main. rewrite Hvalid, Hrun.
    by rewrite (outputFeed_written env feed _ rssString fs Hser Hcreate
                  (Hwrite _)).
  - intros Hfail. rewrite Hfeed.
    rewrite (items_of_all_failed env urls Hfail) in Hitems.
    apply Permutation_nil_r in Hitems. rewrite Hitems.
    pose proof (sort.Slice_Permutation _ created_after []) as Hnil.
    apply Permutation_nil_r in Hnil. rewrite Hnil. by rewrite take_nil.
Qed.

(** X14: without [-input], and with [-mode] left out or given as "all",
    [main] stops at the validation: it exits with status 1 after the one
    line naming the input file, and neither reads nor writes nor fetches. *)
Theorem main_requires_input (env : Env) (fs : gmap string string)
    (flags : Flags) :
  flag_input flags = None →
  flag_mode flags = None ∨ flag_mode flags = Some "all" →
  main env fs flags =
    (fs,
     ["Configuration error: input file must be provided when mode is 'all'"],
     Exit 1).
Proof.
  intros Hinput Hmode. unfold main.
  assert (validateConfig (parsed flags) =
          Some "input file must be provided when mode is 'all'") as ->; [|done].
  apply validateConfig_missing_input.
  unfold parsed. simpl. rewrite Hinput. by destruct Hmode as [-> | ->].
Qed.
End main_properties.

Example sample_main :
  @main insertion_Sorter sample_run.rendering sample_run.fs
    (sample_flags "feeds.txt") =
  (<[ "aggregated.xml" := "<rss version=2.0></rss>" ]> sample_run.fs,
   [warning "http://127.0.0.1:9999" "Get: connection refused"], Exit 0).
Proof. vm_compute. reflexivity. Qed.

Lemma main_success_witness :
  ∃ feed rssString,
    validateConfig (parsed (sample_flags "feeds.txt")) = None ∧
    aggregateFeeds sample_run.rendering sample_run.fs
      (parsed (sample_flags "feeds.txt")) =
      (Returns (Ok feed),
       [warning "http://127.0.0.1:9999" "Get: connection refused"]) ∧
    ToRss sample_run.rendering feed = Ok rssString ∧
    <[ "aggregated.xml" := "<rss version=2.0></rss>" ]> sample_run.fs =
      <[OutputFile (parsed (sample_flags "feeds.txt")) := rssString]>
        sample_run.fs ∧
    length (feeds.Feed.Items feed) ≤
      Z.to_nat (Count (parsed (sample_flags "feeds.txt"))) ∧
    (flag_count (sample_flags "feeds.txt") = None →
     length (feeds.Feed.Items feed) ≤ 10).
Proof.
  apply (@main_success insertion_Sorter sample_run.rendering sample_run.fs
           (<[ "aggregated.xml" := "<rss version=2.0></rss>" ]> sample_run.fs)
           (sample_flags "feeds.txt")
           [warning "http://127.0.0.1:9999" "Get: connection refused"]).
  vm_compute. reflexivity.
Defined.

Lemma main_only_touches_output_witness :
  (@main insertion_Sorter sample_run.rendering sample_run.fs
     (sample_flags "feeds.txt")).1.1 !! "feeds.txt" =
    sample_run.fs !! "feeds.txt" ∧
  (@main insertion_Sorter sample_run.rendering sample_run.fs no_flags).1.1 =
    sample_run.fs.
Proof.
  split.
  - apply (proj1 (@main_only_touches_output insertion_Sorter
                    sample_run.rendering sample_run.fs
                    (sample_flags "feeds.txt"))).
    discriminate.
  - apply (proj2 (@main_only_touches_output insertion_Sorter
                    sample_run.rendering sample_run.fs no_flags)).
    left. discriminate.
Defined.

Lemma main_tolerates_fetch_failures_witness :
  sample_run.fs !! "aggregated.xml" = Some "<rss>old</rss>" ∧
  @main insertion_Sorter sample_run.rendering sample_run.fs
    (sample_flags "broken.txt") =
  (<[ "aggregated.xml" := "<rss version=2.0></rss>" ]> sample_run.fs,
   [warning "http://127.0.0.1:9999" "Get: connection refused";
    warning "http://127.0.0.1:9998" "Get: connection refused"], Exit 0).
Proof.
  split; [reflexivity|].
  destruct (@main_tolerates_fetch_failures insertion_Sorter
              sample_run.rendering sample_run.fs (sample_flags "broken.txt")
              sample_run.broken_txt)
    as (feed & rssString & log & Hrun & Hser & Hmain & _).
  - reflexivity.
  - reflexivity.
  - readable_by_evaluation.
  - intros feed. by eexists.
  - reflexivity.
  - reflexivity.
  - assert (aggregateFeeds sample_run.rendering sample_run.fs
              (parsed (sample_flags "broken.txt")) =
            (Returns (Ok sample_run.empty_feed),
             [warning "http://127.0.0.1:9999" "Get: connection refused";
              warning "http://127.0.0.1:9998" "Get: connection refused"]))
      as Hvalue by (vm_compute; reflexivity).
    rewrite Hvalue in Hrun. injection Hrun as <- <-.
    injection Hser as <-. exact Hmain.
Defined.

Lemma main_requires_input_witness :
  @main insertion_Sorter sample_run.rendering sample_run.fs no_flags =
    (sample_run.fs,
     ["Configuration error: input file must be provided when mode is 'all'"],
     Exit 1).
Proof.
  apply (@main_requires_input insertion_Sorter sample_run.rendering
           sample_run.fs no_flags).
  - reflexivity.
  - left. reflexivity.
Defined.

(** ** [readURLsFromFile]: line ends, long lines, and reading back *)

(** *** A carriage return at the end of a line is trimmed *)

Lemma strip_snoc_Some (p l l' k : list ascii) :
  strings.strip p l = Some l' → strings.strip p (l ++ k) = Some (l' ++ k).
Proof.
  revert l. induction p as [|a p IH]; intros l; simpl.
  - by intros [= <-].
  - destruct l as [|b l]; simpl; [done|].
    destruct (Ascii.eqb a b); [apply IH | done].
Qed.

Lemma strip_snoc_None (p l : list ascii) (c : ascii) :
  c ∉ p → strings.strip p l = None → strings.strip p (l ++ [c]) = None.
Proof.
  revert l. induction p as [|a p IH]; intros l Hc; [by destruct l|].
  apply not_elem_of_cons in Hc as [Hca Hcp].
  destruct l as [|b l]; simpl.
  - intros _. destruct (Ascii.eqb_spec a c); [congruence | done].
  - destruct (Ascii.eqb a b); [by apply IH | done].
Qed.

Lemma strip_any_snoc (runes : list (list ascii)) (l : list ascii) (c : ascii) :
  Forall (λ p, c ∉ tail p) runes → l ≠ [] →
  strings.strip_any runes (l ++ [c]) = (.++ [c]) <$> strings.strip_any runes l.
Proof.
  intros Hrunes Hl.
  induction Hrunes as [|p ps Hp _ IH]; simpl; [done|].
  destruct (strings.strip p l) as [l'|] eqn:Hstrip.
  - by rewrite (strip_snoc_Some _ _ _ _ Hstrip).
  - assert (strings.strip p (l ++ [c]) = None) as ->; [|exact IH].
    destruct p as [|a p]; [done|]. destruct l as [|b l]; [done|].
    simpl in *. destruct (Ascii.eqb a b); [by apply strip_snoc_None | done].
Qed.

Section trim_fuel.
Variable runes : list (list ascii).
Hypothesis runes_nonempty : Forall (λ p, p ≠ []) runes.

Lemma trim_front_S (n : nat) (l : list ascii) :
  length l ≤ n →
  strings.trim_front runes (S n) l = strings.trim_front runes n l.
Proof.
  revert l. induction n as [|n IH]; intros l Hn.
  - destruct l; [|simpl in Hn; lia]. simpl.
    by rewrite (strip_any_nil runes runes_nonempty).
  - change (strings.trim_front runes (S (S n)) l)
      with (match strings.strip_any runes l with
            | Some l' => strings.trim_front runes (S n) l'
            | None => l
            end).
    simpl. destruct (strings.strip_any runes l) as [l'|] eqn:Hl; [|done].
    apply IH. apply (strip_any_shorter runes runes_nonempty) in Hl. lia.
Qed.

Lemma trim_front_snoc (c : ascii) (n : nat) (l : list ascii) :
  Forall (λ p, c ∉ tail p) runes →
  strings.strip_any runes [c] = Some [] →
  length l < n →
  strings.trim_front runes n (l ++ [c]) =
  match strings.trim_front runes n l with
  | [] => []
  | t => t ++ [c]
  end.
Proof.
  intros Htail Hc. revert l. induction n as [|n IH]; intros l Hn; [lia|].
  destruct l as [|b l].
  - simpl. rewrite Hc, (strip_any_nil runes runes_nonempty).
    destruct n; simpl; by rewrite ?(strip_any_nil runes runes_nonempty).
  - cbn [strings.trim_front].
    rewrite (strip_any_snoc runes (b :: l) c Htail) by done.
    destruct (strings.strip_any runes (b :: l)) as [l'|] eqn:Hl; simpl.
    + apply IH. apply (strip_any_shorter runes runes_nonempty) in Hl.
      simpl in *. lia.
    + done.
Qed.
End trim_fuel.

Lemma list_ascii_of_string_app (s t : string) :
  String.list_ascii_of_string (s +:+ t) =
  String.list_ascii_of_string s ++ String.list_ascii_of_string t.
Proof.
  induction s as [|c s IH]; [done|].
  change (String c s +:+ t) with (String c (s +:+ t)). simpl. by rewrite IH.
Qed.

Lemma TrimLeft_bytes_snoc_CR (l : list ascii) :
  strings.TrimLeft_bytes (l ++ [bufio.carriage_return]) =
  match strings.TrimLeft_bytes l with
  | [] => []
  | t => t ++ [bufio.carriage_return]
  end.
Proof.
  unfold strings.TrimLeft_bytes. rewrite length_app. simpl.
  rewrite Nat.add_1_r.
  rewrite (trim_front_snoc _ space_runes_nonempty); [| |done|lia].
  - by rewrite (trim_front_S _ space_runes_nonempty).
  - apply (bool_decide_unpack _). vm_compute. exact I.
Qed.

Lemma TrimRight_bytes_snoc_CR (l : list ascii) :
  strings.TrimRight_bytes (l ++ [bufio.carriage_return]) =
  strings.TrimRight_bytes l.
Proof.
  unfold strings.TrimRight_bytes.
  rewrite reverse_app, length_app. simpl. rewrite Nat.add_1_r.
  reflexivity.
Qed.

Lemma TrimSpace_snoc_CR (s : string) :
  strings.TrimSpace (s +:+ String bufio.carriage_return EmptyString) =
  strings.TrimSpace s.
Proof.
  unfold strings.TrimSpace. f_equal.
  rewrite list_ascii_of_string_app. simpl.
  rewrite TrimLeft_bytes_snoc_CR.
  destruct (strings.TrimLeft_bytes (String.list_ascii_of_string s)) as [|b t];
    [done|].
  apply TrimRight_bytes_snoc_CR.
Qed.

Lemma dropCR_cases (s : string) :
  bufio.dropCR s = s ∨
  s = bufio.dropCR s +:+ String bufio.carriage_return EmptyString.
Proof.
  induction s as [|c s IH]; [by left|].
  destruct s as [|c' s].
  - simpl. destruct (Ascii.eqb_spec c bufio.carriage_return) as [->|];
      [by right | by left].
  - change (bufio.dropCR (String c (String c' s)))
      with (String c (bufio.dropCR (String c' s))).
    destruct IH as [->| IH]; [by left|]. right.
    change (String c (bufio.dropCR (String c' s)) +:+
            String bufio.carriage_return EmptyString)
      with (String c (bufio.dropCR (String c' s) +:+
                      String bufio.carriage_return EmptyString)).
    by rewrite <- IH.
Qed.

(** What the scanner drops, the trimming would drop as well. *)
Lemma TrimSpace_dropCR (s : string) :
  strings.TrimSpace (bufio.dropCR s) = strings.TrimSpace s.
Proof.
  destruct (dropCR_cases s) as [->|Hs]; [done|].
  by rewrite Hs at 2; rewrite TrimSpace_snoc_CR.
Qed.

(** *** Lines *)

Lemma split_lines_line (line rest : string) :
  one_line line →
  bufio.split_lines (line +:+ LF +:+ rest) = line :: bufio.split_lines rest.
Proof.
  unfold one_line. induction line as [|c line IH]; intros Hline.
  - reflexivity.
  - simpl in Hline. apply not_elem_of_cons in Hline as [Hc Hline].
    change (String c line +:+ LF +:+ rest)
      with (String c (line +:+ LF +:+ rest)).
    cbn [bufio.split_lines]. rewrite (IH Hline).
    destruct (Ascii.eqb_spec c bufio.newline); [congruence | done].
Qed.

Lemma split_lines_unlines (lines : list string) :
  Forall one_line lines → bufio.split_lines (unlines LF lines) = lines.
Proof.
  induction 1 as [|line lines Hline _ IH]; [done|].
  cbn [unlines foldr]. fold (unlines LF lines).
  by rewrite split_lines_line, IH.
Qed.

Lemma one_line_CR (line : string) :
  one_line line →
  one_line (line +:+ String bufio.carriage_return EmptyString).
Proof.
  unfold one_line. rewrite list_ascii_of_string_app. simpl.
  intros Hline [?|Hcr%list_elem_of_singleton]%elem_of_app; [done|].
  discriminate Hcr.
Qed.

Lemma append_assoc (s t u : string) : (s +:+ t) +:+ u = s +:+ t +:+ u.
Proof.
  induction s as [|c s IH]; [done|].
  change ((String c s +:+ t) +:+ u) with (String c ((s +:+ t) +:+ u)).
  by rewrite IH.
Qed.

Lemma split_lines_unlines_CRLF (lines : list string) :
  Forall one_line lines →
  bufio.split_lines (unlines CRLF lines) =
  (λ line, line +:+ String bufio.carriage_return EmptyString) <$> lines.
Proof.
  induction 1 as [|line lines Hline _ IH]; [done|].
  cbn [unlines foldr]. fold (unlines CRLF lines).
  replace (line +:+ CRLF +:+ unlines CRLF lines)
    with ((line +:+ String bufio.carriage_return EmptyString) +:+ LF +:+
          unlines CRLF lines)
    by (by rewrite append_assoc).
  rewrite split_lines_line by by apply one_line_CR.
  by rewrite IH.
Qed.

Lemma length_append (s t : string) :
  String.length (s +:+ t) = String.length s + String.length t.
Proof.
  induction s as [|c s IH]; [done|].
  change (String c s +:+ t) with (String c (s +:+ t)). simpl. by rewrite IH.
Qed.

(** *** Failure, reading back and line ends *)

(** X15: [readURLsFromFile] returns a list exactly for a readable file:
    one that exists, that the system lets open and read to its end, and
    that has no line of [MaxScanTokenSize] bytes or more. *)
Theorem readURLsFromFile_Ok_iff_readable (env : Env)
    (fs : gmap string string) (filename : string) :
  (∃ urls, readURLsFromFile env fs filename = Ok urls) ↔
  (∃ data, readable env fs filename data).
Proof.
  split.
  - intros [urls Hok]. by eapply readURLsFromFile_Ok_readable.
  - intros [data Hr]. eexists. by apply readURLsFromFile_readable.
Qed.

Lemma tokens_long (lines : list string) :
  Exists (λ line, (bufio.MaxScanTokenSize ≤ Z.of_nat (String.length line))%Z)
         lines →
  (bufio.tokens lines).2 = Some bufio.ErrTooLong.
Proof.
  induction lines as [|line lines IH]; intros Hlong; [by inv Hlong|].
  simpl.
  destruct (Z.leb_spec bufio.MaxScanTokenSize (Z.of_nat (String.length line)))
    as [|Hshort]; [done|].
  destruct (bufio.tokens lines) as [texts err]; simpl in *.
  apply IH. inv Hlong; [lia | done].
Qed.

Lemma readURLsFromFile_ErrTooLong (env : Env) (fs : gmap string string)
    (filename data : string) :
  fs !! filename = Some data →
  open_fault env filename = None →
  Exists (λ line, (bufio.MaxScanTokenSize ≤ Z.of_nat (String.length line))%Z)
         (bufio.split_lines data) →
  readURLsFromFile env fs filename =
    Err "error reading file: bufio.Scanner: token too long".
Proof.
  intros Hdata Hopen Hlong.
  unfold readURLsFromFile, os.Open, bufio.Scanner. rewrite Hopen, Hdata. simpl.
  rewrite Hdata. simpl. apply tokens_long in Hlong.
  destruct (bufio.tokens (bufio.split_lines data)) as [texts err].
  simpl in Hlong. by rewrite Hlong.
Qed.


Lemma readURLs_plain (urls : list string) :
  Forall plain_url urls →
  List.filter is_url (strings.TrimSpace <$> (bufio.dropCR <$> urls)) = urls.
Proof.
  induction 1 as [|url urls (_ & _ & Htrim & Hurl) _ IH]; [done|].
  rewrite !fmap_cons. simpl.
  by rewrite TrimSpace_dropCR, Htrim, Hurl, IH.
Qed.

Lemma readURLsFromFile_unlines_plain (env : Env) (fs : gmap string string)
    (filename : string) (urls : list string) :
  Forall plain_url urls →
  fs !! filename = Some (unlines LF urls) →
  open_fault env filename = None →
  read_fault env filename = None →
  readURLsFromFile env fs filename = Ok urls.
Proof.
  intros Hurls Hdata Hopen Hread.
  assert (Forall one_line urls) as Hlines
    by (eapply Forall_impl; [exact Hurls | by intros ? [? _]]).
  rewrite (readURLsFromFile_readable env fs filename (unlines LF urls)).
  - unfold file_lines. rewrite split_lines_unlines by done.
    by rewrite readURLs_plain.
  - repeat split; try done. rewrite split_lines_unlines by done.
    eapply Forall_impl; [exact Hurls | by intros ? (_ & ? & _)].
Qed.

(** X17: a list of URLs written one per line is read back as it is, when
    each URL is one line, trimmed, not empty, no comment and short enough. *)
Theorem readURLsFromFile_reads_back (env : Env) (fs : gmap string string)
    (filename : string) (urls : list string) :
  Forall plain_url urls →
  fs !! filename = Some (unlines LF urls) →
  open_fault env filename = None →
  read_fault env filename = None →
  readURLsFromFile env fs filename = Ok urls.
Proof. apply readURLsFromFile_unlines_plain. Qed.

(** X18: below the limit of the scanner the line ends do not matter: when
    every line has fewer than [MaxScanTokenSize - 1] bytes, so that it fits
    the buffer with a carriage return added, the lines ended by carriage
    return and newline give the URLs that the same lines ended by a newline
    give. *)
Theorem readURLsFromFile_CRLF (env : Env) (fs : gmap string string)
    (dos unix : string) (lines : list string) :
  Forall one_line lines →
  Forall (λ line, (Z.of_nat (String.length line) + 1 < bufio.MaxScanTokenSize)%Z)
         lines →
  fs !! dos = Some (unlines CRLF lines) →
  fs !! unix = Some (unlines LF lines) →
  open_fault env dos = None → read_fault env dos = None →
  open_fault env unix = None → read_fault env unix = None →
  ∃ urls,
    readURLsFromFile env fs dos = Ok urls ∧
    readURLsFromFile env fs unix = Ok urls.
Proof.
  intros Hlines Hshort Hdos Hunix Hopen Hread Hopen' Hread'.
  exists (List.filter is_url (strings.TrimSpace <$> lines)). split.
  - rewrite (readURLsFromFile_readable env fs dos (unlines CRLF lines)).
    + unfold file_lines. rewrite split_lines_unlines_CRLF by done.
      do 2 f_equal. rewrite <- !list_fmap_compose.
      apply list_fmap_ext. intros _ line _. simpl.
      by rewrite TrimSpace_dropCR, TrimSpace_snoc_CR.
    + repeat split; try done. rewrite split_lines_unlines_CRLF by done.
      rewrite Forall_fmap. eapply Forall_impl; [exact Hshort|].
      intros line Hline. unfold compose. cbn beta in *. rewrite length_append.
      cbn [String.length]. lia.
  - rewrite (readURLsFromFile_readable env fs unix (unlines LF lines)).
    + unfold file_lines. rewrite split_lines_unlines by done.
      do 2 f_equal. rewrite <- !list_fmap_compose.
      apply list_fmap_ext. intros _ line _. simpl.
      by rewrite TrimSpace_dropCR.
    + repeat split; try done. rewrite split_lines_unlines by done.
      eapply Forall_impl; [exact Hshort|]. intros line Hline.
      cbn beta in *. lia.
Qed.

(** *** The URLs returned are plain *)

Lemma split_lines_one_line (data : string) :
  Forall one_line (bufio.split_lines data).
Proof.
  unfold one_line. induction data as [|c data IH]; [constructor|].
  cbn [bufio.split_lines].
  destruct (Ascii.eqb_spec c bufio.newline) as [|Hc].
  - constructor; [apply not_elem_of_nil | done].
  - destruct (bufio.split_lines data) as [|line lines].
    + constructor; [|constructor]. cbn [String.list_ascii_of_string].
      intros Hin%list_elem_of_singleton. by apply Hc.
    + inv IH. constructor; [|done]. cbn [String.list_ascii_of_string].
      intros [Hin|Hin]%elem_of_cons; [by apply Hc | done].
Qed.

Lemma length_list_ascii_of_string (s : string) :
  length (String.list_ascii_of_string s) = String.length s.
Proof. induction s as [|c s IH]; simpl; by rewrite ?IH. Qed.

Lemma TrimSpace_bytes (s : string) :
  ∃ front back,
    String.list_ascii_of_string s =
    front ++ String.list_ascii_of_string (strings.TrimSpace s) ++ back.
Proof.
  unfold strings.TrimSpace. rewrite String.list_ascii_of_string_of_list_ascii.
  destruct (trim_front_suffix strings.space_runes
              (length (String.list_ascii_of_string s))
              (String.list_ascii_of_string s)) as [front Hfront].
  fold (strings.TrimLeft_bytes (String.list_ascii_of_string s)) in Hfront.
  destruct (TrimRight_bytes_prefix
              (strings.TrimLeft_bytes (String.list_ascii_of_string s)))
    as [back Hback].
  exists front, back. by rewrite <- Hback.
Qed.

Lemma TrimSpace_one_line (s : string) :
  one_line s → one_line (strings.TrimSpace s).
Proof.
  unfold one_line. destruct (TrimSpace_bytes s) as (front & back & ->).
  intros Hs Hin. apply Hs. rewrite !elem_of_app. auto.
Qed.

Lemma TrimSpace_length (s : string) :
  String.length (strings.TrimSpace s) ≤ String.length s.
Proof.
  rewrite <- !length_list_ascii_of_string.
  destruct (TrimSpace_bytes s) as (front & back & ->).
  rewrite !length_app. lia.
Qed.

Lemma readURLsFromFile_plain (env : Env) (fs : gmap string string)
    (filename data : string) :
  readable env fs filename data →
  Forall plain_url
    (List.filter is_url (strings.TrimSpace <$> file_lines data)).
Proof.
  intros (_ & _ & _ & Hshort).
  pose proof (split_lines_one_line data) as Hlines.
  unfold file_lines. rewrite <- list_fmap_compose.
  induction Hshort as [|line lines Hline _ IH]; [constructor|].
  inv Hlines. rewrite fmap_cons. simpl.
  rewrite TrimSpace_dropCR.
  destruct (is_url (strings.TrimSpace line)) eqn:Hurl; [|by apply IH].
  constructor; [|by apply IH].
  split; [by apply TrimSpace_one_line|].
  split; [pose proof (TrimSpace_length line); lia|].
  split; [apply TrimSpace_idemp | done].
Qed.

(** X19: what [readURLsFromFile] returns is a fixed point: written one URL
    per line and read again, the list returned by a first reading comes
    back unchanged. *)
Theorem readURLsFromFile_reread (env env' : Env) (fs fs' : gmap string string)
    (filename filename' data : string) (urls : list string) :
  readable env fs filename data →
  readURLsFromFile env fs filename = Ok urls →
  fs' !! filename' = Some (unlines LF urls) →
  open_fault env' filename' = None →
  read_fault env' filename' = None →
  readURLsFromFile env' fs' filename' = Ok urls.
Proof.
  intros Hr Hread. rewrite (readURLsFromFile_readable _ _ _ _ Hr) in Hread.
  injection Hread as <-.
  apply readURLsFromFile_unlines_plain. by eapply readURLsFromFile_plain.
Qed.

(** *** On sample files *)

Lemma readURLsFromFile_Ok_iff_readable_witness :
  ∃ urls, readURLsFromFile sample_run.env sample_run.fs "feeds.txt" = Ok urls.
Proof.
  apply (proj2 (readURLsFromFile_Ok_iff_readable sample_run.env sample_run.fs
                  "feeds.txt")).
  exists sample_run.feeds_txt. readable_by_evaluation.
Defined.


Ltac plain_by_evaluation :=
  split; [apply (bool_decide_unpack _); vm_compute; exact I|];
  split; [vm_compute; reflexivity|];
  split; vm_compute; reflexivity.

Lemma readURLsFromFile_reads_back_witness :
  readURLsFromFile sample_run.env
    {[ "urls.txt" := unlines LF ["http://127.0.0.1:8001"; "http://127.0.0.1:8002"] ]}
    "urls.txt" =
  Ok ["http://127.0.0.1:8001"; "http://127.0.0.1:8002"].
Proof.
  apply (readURLsFromFile_reads_back sample_run.env
           {[ "urls.txt" := unlines LF ["http://127.0.0.1:8001"; "http://127.0.0.1:8002"] ]}
           "urls.txt" ["http://127.0.0.1:8001"; "http://127.0.0.1:8002"]).
  - constructor; [plain_by_evaluation|].
    constructor; [plain_by_evaluation | constructor].
  - reflexivity.
  - reflexivity.
  - reflexivity.
Defined.

Lemma readURLsFromFile_CRLF_witness :
  ∃ urls,
    readURLsFromFile sample_run.env
      {[ "dos.txt" := unlines CRLF ["# feeds"; " http://127.0.0.1:8001"];
         "unix.txt" := unlines LF ["# feeds"; " http://127.0.0.1:8001"] ]}
      "dos.txt" = Ok urls ∧
    readURLsFromFile sample_run.env
      {[ "dos.txt" := unlines CRLF ["# feeds"; " http://127.0.0.1:8001"];
         "unix.txt" := unlines LF ["# feeds"; " http://127.0.0.1:8001"] ]}
      "unix.txt" = Ok urls.
Proof.
  apply (readURLsFromFile_CRLF sample_run.env
           {[ "dos.txt" := unlines CRLF ["# feeds"; " http://127.0.0.1:8001"];
              "unix.txt" := unlines LF ["# feeds"; " http://127.0.0.1:8001"] ]}
           "dos.txt" "unix.txt" ["# feeds"; " http://127.0.0.1:8001"]);
    try reflexivity; apply (bool_decide_unpack _); vm_compute; exact I.
Defined.

Lemma readURLsFromFile_reread_witness :
  readURLsFromFile sample_run.env
    {[ "again.txt" :=
         unlines LF ["http://127.0.0.1:8001"; "http://127.0.0.1:9999";
                     "http://127.0.0.1:8002"] ]}
    "again.txt" =
  Ok ["http://127.0.0.1:8001"; "http://127.0.0.1:9999"; "http://127.0.0.1:8002"].
Proof.
  apply (readURLsFromFile_reread sample_run.env sample_run.env sample_run.fs
           {[ "again.txt" :=
                unlines LF ["http://127.0.0.1:8001"; "http://127.0.0.1:9999";
                            "http://127.0.0.1:8002"] ]}
           "feeds.txt" "again.txt" sample_run.feeds_txt).
  - readable_by_evaluation.
  - vm_compute. reflexivity.
  - reflexivity.
  - reflexivity.
  - reflexivity.
Defined.

(** ** [readURLsFromFile] against the lines of the file *)

(** *** The scanner delivers the lines of the file *)

Lemma split_lines_last (last : string) :
  one_line last → last ≠ EmptyString → bufio.split_lines last = [last].
Proof.
  unfold one_line. induction last as [|c last IH]; intros Hline Hne; [done|].
  cbn [String.list_ascii_of_string] in Hline.
  apply not_elem_of_cons in Hline as [Hc Hline].
  cbn [bufio.split_lines].
  destruct (Ascii.eqb_spec c bufio.newline); [congruence|].
  destruct last as [|c' last]; [done|].
  by rewrite IH.
Qed.

Lemma split_lines_unlines_last (init : list string) (last : string) :
  Forall one_line init → one_line last → last ≠ EmptyString →
  bufio.split_lines (unlines LF init +:+ last) = init ++ [last].
Proof.
  intros Hinit Hlast Hne.
  induction Hinit as [|line init Hline _ IH]; [by apply split_lines_last|].
  cbn [unlines foldr]. fold (unlines LF init).
  rewrite !append_assoc, split_lines_line by done. by rewrite IH.
Qed.

Lemma file_of_lines_split (data : string) (lines : list string) :
  file_of_lines data lines → bufio.split_lines data = lines.
Proof.
  intros [Hlines [->|(init & last & -> & Hne & ->)]].
  - by apply split_lines_unlines.
  - apply Forall_app in Hlines as [Hinit Hlast]. inv Hlast.
    by apply split_lines_unlines_last.
Qed.

(** *** [strings.TrimSpace] gives the trimmed form *)

Lemma strip_prefix (p rest : list ascii) : strings.strip p (p ++ rest) = Some rest.
Proof.
  induction p as [|a p IH]; simpl; [by destruct rest|].
  by rewrite Ascii.eqb_refl.
Qed.

Lemma strip_any_starts (runes : list (list ascii)) (l : list ascii) :
  strings.strip_any runes l = None →
  ¬ ∃ r rest, r ∈ runes ∧ l = r ++ rest.
Proof.
  intros Hnone (r & rest & Hr & ->).
  induction runes as [|p ps IH]; [by apply not_elem_of_nil in Hr|].
  simpl in Hnone.
  destruct (strings.strip p (r ++ rest)) eqn:Hp; [done|].
  apply elem_of_cons in Hr as [->|Hr]; [|by apply IH].
  by rewrite strip_prefix in Hp.
Qed.

Lemma trim_front_dropped (runes : list (list ascii)) (n : nat) (l : list ascii) :
  ∃ rs, Forall (λ r, r ∈ runes) rs ∧
        l = concat rs ++ strings.trim_front runes n l.
Proof.
  revert l. induction n as [|n IH]; intros l; simpl; [by exists []|].
  destruct (strings.strip_any runes l) as [l'|] eqn:Hl; [|by exists []].
  apply strip_any_Some in Hl as (p & Hp & ->).
  destruct (IH l') as (rs & Hrs & Hl').
  exists (p :: rs). split; [by constructor|].
  simpl. by rewrite <- app_assoc, <- Hl'.
Qed.

Lemma reverse_concat {A : Type} (ls : list (list A)) :
  reverse (concat ls) = concat (reverse (reverse <$> ls)).
Proof.
  induction ls as [|l ls IH]; [done|].
  rewrite fmap_cons, reverse_cons, concat_app. simpl.
  by rewrite reverse_app, IH, app_nil_r.
Qed.

Lemma TrimLeft_bytes_white_space (l : list ascii) :
  ∃ front, white_space front ∧ l = front ++ strings.TrimLeft_bytes l.
Proof.
  destruct (trim_front_dropped strings.space_runes (length l) l)
    as (rs & Hrs & Hl).
  exists (concat rs). split; [by exists rs | done].
Qed.

Lemma TrimRight_bytes_white_space (l : list ascii) :
  ∃ back, white_space back ∧ l = strings.TrimRight_bytes l ++ back.
Proof.
  unfold strings.TrimRight_bytes.
  destruct (trim_front_dropped (map reverse strings.space_runes) (length l)
              (reverse l)) as (rs & Hrs & Hl).
  exists (reverse (concat rs)). split.
  - exists (reverse (reverse <$> rs)). split; [|apply reverse_concat].
    apply Forall_reverse, Forall_fmap. eapply Forall_impl; [exact Hrs|].
    intros r Hr. simpl.
    apply list_elem_of_fmap in Hr as (r' & -> & Hr').
    by rewrite reverse_involutive.
  - by rewrite <- reverse_app, <- Hl, reverse_involutive.
Qed.

Lemma TrimSpace_trimmed_form (line : string) :
  trimmed_form line (strings.TrimSpace line).
Proof.
  unfold trimmed_form, bytes_of, strings.TrimSpace.
  rewrite String.list_ascii_of_string_of_list_ascii.
  set (l := String.list_ascii_of_string line).
  destruct (TrimLeft_bytes_white_space l) as (front & Hfront & Hl).
  destruct (TrimRight_bytes_white_space (strings.TrimLeft_bytes l))
    as (back & Hback & Hmid).
  exists front, back. split; [by rewrite <- Hmid|].
  split; [done|]. split; [done|]. split.
  - apply strip_any_starts.
    destruct (strings.strip_any strings.space_runes
                (strings.TrimRight_bytes (strings.TrimLeft_bytes l)))
      as [k|] eqn:Hk; [|done].
    destruct (strip_any_app strings.space_runes
                (strings.TrimRight_bytes (strings.TrimLeft_bytes l)) back)
      as [k' Hk']; [by eauto|].
    rewrite <- Hmid in Hk'. by rewrite TrimLeft_bytes_done in Hk'.
  - intros (r & init & Hr & Hends).
    apply (strip_any_starts _ _
             (TrimRight_bytes_done (strings.TrimLeft_bytes l))).
    exists (reverse r), (reverse init). split.
    + apply list_elem_of_fmap. by exists r.
    + by rewrite Hends, reverse_app.
Qed.

(** *** The loop keeps the lines that the specification keeps *)

Lemma is_url_true (line : string) :
  is_url line = true → line ≠ EmptyString ∧ ¬ comment line.
Proof.
  unfold is_url. intros [Hne Hc]%andb_true_iff.
  apply negb_true_iff in Hne, Hc. split; [by apply String.eqb_neq|].
  intros [rest ->]. unfold strings.HasPrefix in Hc. simpl in Hc.
  destruct (ascii_dec "#" "#"); [by destruct rest | done].
Qed.

Lemma is_url_false (line : string) :
  is_url line = false → line = EmptyString ∨ comment line.
Proof.
  unfold is_url, strings.HasPrefix.
  destruct line as [|c line]; [by left|].
  change (String.prefix "#" (String c line))
    with (if ascii_dec "#" c then String.prefix EmptyString line else false).
  destruct (ascii_dec "#" c) as [<-|Hc].
  - intros _. right. by exists line.
  - by cbn [String.eqb negb andb].
Qed.

Lemma url_lines_scanned (lines : list string) :
  url_lines lines
    (List.filter is_url (strings.TrimSpace <$> (bufio.dropCR <$> lines))).
Proof.
  induction lines as [|line lines IH]; [constructor|].
  rewrite !fmap_cons. simpl. rewrite TrimSpace_dropCR.
  destruct (is_url (strings.TrimSpace line)) eqn:Hurl.
  - apply is_url_true in Hurl as [Hne Hc].
    by apply url_lines_keep; [apply TrimSpace_trimmed_form|..].
  - apply is_url_false in Hurl.
    by eapply url_lines_skip; [apply TrimSpace_trimmed_form|..].
Qed.

Lemma url_lines_kept (lines urls : list string) :
  url_lines lines urls →
  Forall (λ url, url ≠ EmptyString ∧ ¬ comment url ∧
                 ¬ starts_with_space (bytes_of url) ∧
                 ¬ ends_with_space (bytes_of url)) urls.
Proof.
  induction 1 as [|line url lines urls (front & back & _ & _ & _ & Hs & He)
                    Hne Hc _ IH|]; [constructor| |done].
  by constructor.
Qed.

(** C5, amended: of a file that opens and is read to its end without error,
    and that has no line of [MaxScanTokenSize] bytes or more,
    [readURLsFromFile] returns, in the order of the file, the trimmed forms
    of the lines whose trimmed form is neither empty nor a comment. The
    result depends on the contents only, and none of its elements is empty,
    a comment, or has white space at either end. *)
Theorem readURLsFromFile_url_lines (env : Env) (fs : gmap string string)
    (filename data : string) (lines : list string) :
  fs !! filename = Some data →
  open_fault env filename = None →
  read_fault env filename = None →
  file_of_lines data lines →
  Forall (λ line, (Z.of_nat (String.length line) < bufio.MaxScanTokenSize)%Z)
         lines →
  ∃ urls,
    readURLsFromFile env fs filename = Ok urls ∧
    url_lines lines urls ∧
    (∀ env' fs' filename',
       fs' !! filename' = Some data →
       open_fault env' filename' = None →
       read_fault env' filename' = None →
       readURLsFromFile env' fs' filename' = Ok urls) ∧
    Forall (λ url, url ≠ EmptyString ∧ ¬ comment url ∧
                   ¬ starts_with_space (bytes_of url) ∧
                   ¬ ends_with_space (bytes_of url)) urls.
Proof.
  intros Hdata Hopen Hread Hfile Hshort.
  pose proof (file_of_lines_split data lines Hfile) as Hsplit.
  assert (∀ env' fs' filename',
    fs' !! filename' = Some data →
    open_fault env' filename' = None →
    read_fault env' filename' = None →
    readURLsFromFile env' fs' filename' =
    Ok (List.filter is_url (strings.TrimSpace <$> (bufio.dropCR <$> lines))))
    as Hany.
  { intros env' fs' filename' Hdata' Hopen' Hread'.
    rewrite (readURLsFromFile_readable env' fs' filename' data).
    - unfold file_lines. by rewrite Hsplit.
    - repeat split; try done. by rewrite Hsplit. }
  exists (List.filter is_url (strings.TrimSpace <$> (bufio.dropCR <$> lines))).
  split; [by apply Hany|].
  split; [apply url_lines_scanned|].
  split; [exact Hany|].
  eapply url_lines_kept, url_lines_scanned.
Qed.

Lemma readURLsFromFile_url_lines_witness :
  readURLsFromFile sample_run.env sample_run.fs "feeds.txt" =
    Ok ["http://127.0.0.1:8001"; "http://127.0.0.1:9999";
        "http://127.0.0.1:8002"] ∧
  url_lines feeds_txt_lines
    ["http://127.0.0.1:8001"; "http://127.0.0.1:9999"; "http://127.0.0.1:8002"] ∧
  Forall (λ url, url ≠ EmptyString ∧ ¬ comment url ∧
                 ¬ starts_with_space (bytes_of url) ∧
                 ¬ ends_with_space (bytes_of url))
    ["http://127.0.0.1:8001"; "http://127.0.0.1:9999"; "http://127.0.0.1:8002"].
Proof.
  destruct (readURLsFromFile_url_lines sample_run.env sample_run.fs
              "feeds.txt" sample_run.feeds_txt feeds_txt_lines)
    as (urls & Hok & Hlines & _ & Hall).
  - reflexivity.
  - reflexivity.
  - reflexivity.
  - split; [apply (bool_decide_unpack _); vm_compute; exact I|].
    left. vm_compute. reflexivity.
  - apply (bool_decide_unpack _). vm_compute. exact I.
  - assert (readURLsFromFile sample_run.env sample_run.fs "feeds.txt" =
            Ok ["http://127.0.0.1:8001"; "http://127.0.0.1:9999";
                "http://127.0.0.1:8002"]) as Hvalue
      by (vm_compute; reflexivity).
    rewrite Hvalue in Hok. injection Hok as <-.
    split; [exact Hvalue|]. split; [exact Hlines | exact Hall].
Defined.

Lemma append_empty_r (s : string) : s +:+ EmptyString = s.
Proof.
  induction s as [|c s IH]; [done|].
  change (String c s +:+ EmptyString) with (String c (s +:+ EmptyString)).
  by rewrite IH.
Qed.

(** C5, as stated, fails: a file that exists, opens and is read without
    any error of the system, and whose first line is a URL, is not read:
    its second line has [MaxScanTokenSize] bytes, and [readURLsFromFile]
    returns the scanner's error instead of the lines. *)
Lemma readURLsFromFile_long_line_not_read :
  ({[ "long.txt" := long_file ]} : gmap string string) !! "long.txt" =
    Some long_file ∧
  open_fault sample_run.env "long.txt" = None ∧
  read_fault sample_run.env "long.txt" = None ∧
  file_of_lines long_file long_file_lines ∧
  readURLsFromFile sample_run.env {[ "long.txt" := long_file ]} "long.txt" =
    Err "error reading file: bufio.Scanner: token too long".
Proof.
  split; [reflexivity|]. split; [reflexivity|]. split; [reflexivity|].
  split.
  - split; [apply (bool_decide_unpack _); vm_compute; exact I|].
    left. unfold long_file, long_file_lines, unlines. cbn [foldr].
    by rewrite append_empty_r.
  - apply (readURLsFromFile_ErrTooLong sample_run.env _ "long.txt" long_file);
      [reflexivity | reflexivity |].
    apply (bool_decide_unpack _). vm_compute. exact I.
Qed.
